(** * CZML viewer: orbit sampling and field-of-view footprint

  A shallow embedding of [src/CesiumViewer.jsx]: the two helper functions
  [calculatePositionAtTime] and [calculateFovFootprint], the sampling
  loop of the component's effect, and the functions the component hands
  to Cesium and to React (the clock-tick listeners, the callbacks of the
  cone, the mouse-move handler, the colour handlers), with the properties
  the specification states about them and further ones the code shows.

  JavaScript numbers are IEEE 754 binary64 values: they are modelled by
  Rocq's primitive floats, whose operations are specified by [SpecFloat].
  The functions of satellite.js, Cesium and the JavaScript runtime that the
  component calls but does not define are the fields of the class
  [Imports]; every property is proved for all of them. *)

From Stdlib Require Import ZArith List String Ascii Bool Lia Sorted.
From Stdlib Require Import Floats DecimalString.
From Equations.Prop Require Import Equations Logic.
Import ListNotations.

Local Open Scope Z_scope.

(** ** JavaScript values *)

Module JS.

(** A Number is a binary64 float. *)
Definition number := float.

(** Exceptions the modelled code can raise. *)
Inductive error :=
| RangeError.

(** The outcome of evaluating an expression: a value, or a thrown error. *)
Inductive completion (A : Type) :=
| Normal (a : A)
| Throw (e : error).
Arguments Normal {A} a.
Arguments Throw {A} e.

(** The global [isFinite], on an argument that already is a Number. *)
Definition isFinite (x : number) : bool := PrimFloat.is_finite x.

Definition NaN : number := PrimFloat.nan.

(** [Math.PI], the binary64 value nearest to pi (3.141592653589793). *)
Definition Math_PI : number := 0x1.921fb54442d18p+1%float.

(** *** [Number.prototype.toFixed] *)

(** The characters 0 to 9. *)
Definition is_digit (c : ascii) : bool :=
  ((48 <=? nat_of_ascii c) && (nat_of_ascii c <=? 57))%nat.

(** The decimal representation of a non-negative integer, without leading
    zeroes: "0" for zero. *)
Definition decimal_digits (n : Z) : list ascii :=
  list_ascii_of_string (NilZero.string_of_uint (N.to_uint (Z.to_N n))).

(** The integer [n] for which [n / 10^f] is closest to [m * 2^e], the
    larger one when two are as close. *)
Definition nearest_scaled (m : positive) (e : Z) (f : Z) : Z :=
  if 0 <=? e then Z.pos m * 2 ^ e * 10 ^ f
  else (2 * Z.pos m * 10 ^ f + 2 ^ (- e)) / 2 ^ (1 - e).

(** [10^21 <= m * 2^e]. *)
Definition at_least_1e21 (m : positive) (e : Z) : bool :=
  if 0 <=? e then 10 ^ 21 <=? Z.pos m * 2 ^ e
  else 10 ^ 21 * 2 ^ (- e) <=? Z.pos m.

(** The digits of [n] with [f] fraction digits: zero-padded on the left to
    [f + 1] digits, a point before the last [f]. *)
Definition fixed_point (n : Z) (f : nat) : list ascii :=
  let m := decimal_digits n in
  let k := List.length m in
  let m := if (k <=? f)%nat then repeat "0"%char (f + 1 - k) ++ m else m in
  let k := List.length m in
  match f with
  | O => m
  | _ => firstn (k - f) m ++ "."%char :: skipn (k - f) m
  end.

Section ToFixed.

(** [Number::toString] on a finite value of magnitude at least [10^21]
    (exponential notation); its last digit is left to the implementation. *)
Variable Number_toString : number -> string.

Definition toFixed (x : number) (fractionDigits : Z) : completion string :=
  if (fractionDigits <? 0) || (100 <? fractionDigits) then Throw RangeError
  else
    match Prim2SF x with
    | S754_nan => Normal "NaN"%string
    | S754_infinity false => Normal "Infinity"%string
    | S754_infinity true => Normal "-Infinity"%string
    | S754_zero _ =>
        Normal (string_of_list_ascii (fixed_point 0 (Z.to_nat fractionDigits)))
    | S754_finite s m e =>
        if at_least_1e21 m e then Normal (Number_toString x)
        else
          let n := nearest_scaled m e fractionDigits in
          let body := fixed_point n (Z.to_nat fractionDigits) in
          Normal (string_of_list_ascii
                    (if s then "-"%char :: body else body))
    end.

End ToFixed.

(** A list of characters without its leading minus sign, if it has one. *)
Definition strip_sign (l : list ascii) : list ascii :=
  match l with
  | "-"%char :: t => t
  | _ => l
  end.

(** A string in fixed-point notation with exactly two fraction digits:
    an optional minus sign, one or more digits, a point, two digits. *)
Definition two_fraction_digits (s : string) : bool :=
  let body := strip_sign (list_ascii_of_string s) in
  let k := List.length body in
  (4 <=? k)%nat
  && forallb is_digit (firstn (k - 3) body)
  && match skipn (k - 3) body with
     | [p; d1; d2] => Ascii.eqb p "."%char && is_digit d1 && is_digit d2
     | _ => false
     end.

End JS.

Import JS.

(** ** Rounding of binary64 arithmetic

    What [SpecFloat]'s rounding computes, in integers: the value of a
    positive finite binary64 in units of [2^-1074], the rational a shift
    record locates, rounding to nearest with ties to even, and the mantissa
    and the exponent of a rounded product and of a quotient by one
    million. *)

(** A record [r] of a right shift locates the rational [p / q]: its
    mantissa is the integer part, its round and sticky bits tell where the
    fraction lies with respect to one half. *)
Definition locates (p q : Z) (r : shr_record) : Prop :=
  0 < q /\ 0 <= shr_m r /\ shr_m r * q <= p < (shr_m r + 1) * q
  /\ shr_r r = (q <=? 2 * (p - shr_m r * q))
  /\ shr_s r = negb ((p - shr_m r * q =? 0) || (2 * (p - shr_m r * q) =? q)).

(** Rounding [p / q] to the nearest integer, ties to even. *)
Definition rne (p q : Z) : Z :=
  let m := p / q in
  let t := 2 * (p mod q) in
  if t <? q then m
  else if q <? t then m + 1
  else if Z.even m then m else m + 1.

(** The binary64 value of mantissa [M] (at most [2^53]) and exponent [E]:
    a mantissa of [2^53] moves to the next exponent, an exponent above 971
    overflows. *)
Definition rounded (sx : bool) (M E : Z) : spec_float :=
  if M =? 0 then S754_zero sx
  else if M <? 2 ^ 53 then
    if E <=? 971 then S754_finite sx (Z.to_pos M) E else S754_infinity sx
  else
    if E + 1 <=? 971 then S754_finite sx (Z.to_pos (2 ^ 52)) (E + 1)
    else S754_infinity sx.

(** The value of a positive finite binary64, in units of [2^-1074]. *)
Definition units (m : positive) (e : Z) : Z := Z.pos m * 2 ^ (e + 1074).

(** The exponent of a rounded product. *)
Definition mul_exponent (m1 m2 : positive) (e1 e2 : Z) : Z :=
  fexp prec emax (Zdigits2 (Z.pos (m1 * m2)) + (e1 + e2)).

(** Its mantissa: the exact product, rounded at that exponent. *)
Definition mul_mantissa (m1 m2 : positive) (e1 e2 : Z) : Z :=
  rne (Z.pos (m1 * m2)) (1 * 2 ^ (mul_exponent m1 m2 e1 e2 - (e1 + e2))).

(** [1000000] as a binary64 value: mantissa [10^6 * 2^33], exponent [-33]. *)
Definition million_m : positive := 8589934592000000.
Definition million_e : Z := -33.

(** The exponent at which a quotient by one million is computed, and the
    numerator it is computed from. *)
Definition div_exponent (m : positive) (e : Z) : Z :=
  fexp prec emax (Z.pos (digits2_pos m) + e - 20).

Definition div_numerator (m : positive) (e : Z) : Z :=
  Z.pos m * 2 ^ (e + 33 - div_exponent m e).

(** The exponent and the mantissa of the rounded quotient. *)
Definition quotient_exponent (m : positive) (e : Z) : Z :=
  fexp prec emax (Zdigits2 (div_numerator m e / Z.pos million_m) + div_exponent m e).

Definition quotient_mantissa (m : positive) (e : Z) : Z :=
  rne (div_numerator m e)
      (Z.pos million_m * 2 ^ (quotient_exponent m e - div_exponent m e)).

(** The non-negative values: zeros, positive finite values, infinity. *)
Definition nonneg (f : spec_float) : Prop :=
  match f with
  | S754_zero _ | S754_infinity false | S754_finite false _ _ => True
  | _ => False
  end.

(** The hundredths [toFixed(2)] prints for a non-negative value below
    [10^21], and the string it prints them as. *)
Definition SFhundredths (f : spec_float) : option Z :=
  match f with
  | S754_zero _ => Some 0
  | S754_finite false m e =>
      if at_least_1e21 m e then None else Some (nearest_scaled m e 2)
  | _ => None
  end.

Definition hundredths (a : number) : option Z := SFhundredths (Prim2SF a).

Definition fixed_2 (n : Z) : string := string_of_list_ascii (fixed_point n 2).

(** Case analysis on every binary64 value in the context, signs included. *)
Ltac float_cases :=
  repeat match goal with
  | f : spec_float |- _ => destruct f as [[|]|[|]| |[|] ? ?]
  end.

(** ** Data of the viewer *)

(** A vector of satellite.js (an inertial or an Earth-fixed position, in
    kilometres). *)
Module Vec3.
Record t := mk { x : number; y : number; z : number }.
End Vec3.

(** A geodetic location of satellite.js. *)
Module Geodetic.
Record t := mk { longitude : number; latitude : number; height : number }.
End Geodetic.

(** What [propagate] returns: each field is a vector, or falsy ([None])
    when the propagation failed. *)
Record PositionAndVelocity := {
  position : option Vec3.t;
  velocity : option Vec3.t
}.

(** Cesium's [Cartesian3]. *)
Module Cartesian3.
Record t := mk { x : number; y : number; z : number }.
End Cartesian3.

(** The object [calculatePositionAtTime] returns: [{ x, y, z }] with, on
    success, a [height] property ([None] when the object has none). *)
Record Position := {
  x : number;
  y : number;
  z : number;
  height : option number
}.

(** Reading a property that may be absent ([undefined]) as a Number. *)
Definition to_number (v : option number) : number :=
  match v with
  | Some n => n
  | None => NaN
  end.

Definition tleLine1 : string :=
  "1 25544U 98067A   21275.51251685  .00001419  00000-0  32216-4 0  9993".
Definition tleLine2 : string :=
  "2 25544  51.6441  51.4465 0002207 282.8304 220.1671 15.48935791293993".

(** The numeric literals of the source. *)
Definition num_2 : number := 2%float.
Definition num_45 : number := 45%float.
Definition num_1000 : number := 1000%float.
Definition num_1000000 : number := 1000000%float.

(** ** What the component imports

    The functions of the JavaScript runtime ([Math.tan], which is
    implementation-approximated, and [Number::toString]), of satellite.js
    and of Cesium that the component calls. [JulianDate_now k] is what the
    [k]-th call of [JulianDate.now()] returns; the loop counter, a small
    integer, is passed to [addSeconds] as it is. *)
Class Imports := {
  Math_tan : number -> number;
  Number_toString : number -> string;
  Date : Type;
  SatRec : Type;
  twoline2satrec : string -> string -> SatRec;
  propagate : SatRec -> Date -> PositionAndVelocity;
  gstime : Date -> number;
  degreesToRadians : number -> number;
  eciToGeodetic : Vec3.t -> number -> Geodetic.t;
  geodeticToEcf : Geodetic.t -> Vec3.t;
  JulianDate : Type;
  JulianDate_now : nat -> JulianDate;
  JulianDate_addSeconds : JulianDate -> Z -> JulianDate;
  JulianDate_toDate : JulianDate -> Date;
  JulianDate_lessThan : JulianDate -> JulianDate -> Prop
}.

(** ** Sample values of the imported functions

    Closed instances of what the component imports, to evaluate the model on
    concrete inputs. Each one is exact at the inputs the examples use. *)

Module Sample.

(** [deg2rad] of satellite.js, pi / 180 (0.017453292519943295). *)
Definition deg2rad : number := 0x1.1df46a2529d39p-6%float.

Definition degreesToRadians (degrees : number) : number :=
  (degrees * deg2rad)%float.

(** [Math.tan] to the nearest binary64 value at 22.5 degrees
    (tan 0.39269908169872414 = 0.41421356237309503), at 30 degrees
    (tan 0.5235987755982988 = 0.5773502691896257) and at 100 degrees
    (tan 1.7453292519943295 = -5.671281819617711); zero at zero. *)
Definition Math_tan (v : number) : number :=
  if (v =? 0x1.921fb54442d18p-2)%float then 0x1.a827999fcef32p-2%float
  else if (v =? 0x1.0c152382d7365p-1)%float then 0x1.279a74590331cp-1%float
  else if (v =? 0x1.becde5da115a9p+0)%float then (-0x1.6af648056a138p+2)%float
  else if (v =? 0)%float then v
  else NaN.

(** [Number::toString] of 10^21. *)
Definition Number_toString (_ : number) : string := "1e+21".

(** Dates and Julian dates as seconds since a common epoch; the [k]-th
    reading of the clock is [k] seconds after it. *)
Definition Date : Type := Z.
Definition JulianDate : Type := Z.
Definition JulianDate_now (k : nat) : JulianDate := Z.of_nat k.
Definition JulianDate_addSeconds (t : JulianDate) (seconds : Z) : JulianDate :=
  t + seconds.
Definition JulianDate_toDate (t : JulianDate) : Date := t.

Definition SatRec : Type := (string * string)%type.
Definition twoline2satrec (l1 l2 : string) : SatRec := (l1, l2).

(** A satellite on the x axis of the inertial frame, 400 km above the
    equator (6778.137 km from the centre), at a sidereal angle of zero. *)
Definition on_axis : PositionAndVelocity :=
  {| position := Some (Vec3.mk 0x1.a7a23126e978dp+12 0 0)%float;
     velocity := Some (Vec3.mk 0 0x1.ea3d70a3d70a4p+2 0)%float |}.

Definition failed : PositionAndVelocity :=
  {| position := None; velocity := None |}.

(** Three orbits: one that propagates at every date, one that has decayed,
    and one whose propagation fails from 1100 to 2200 seconds after the
    epoch. *)
Definition propagate_valid (_ : SatRec) (_ : Date) : PositionAndVelocity := on_axis.
Definition propagate_decayed (_ : SatRec) (_ : Date) : PositionAndVelocity := failed.
Definition propagate_intermittent (_ : SatRec) (date : Date) : PositionAndVelocity :=
  if (1100 <=? date) && (date <? 2200) then failed else on_axis.

Definition gstime (_ : Date) : number := 0%float.

(** The geodetic location of the satellite [on_axis]: latitude and
    longitude 0 (radians), 400 km high. *)
Definition eciToGeodetic (_ : Vec3.t) (_ : number) : Geodetic.t :=
  (Geodetic.mk 0 0 400)%float.

(** The ellipsoid model at latitude 0 and longitude 0, where the
    Earth-fixed position is (6378.137 + height, 0, 0). *)
Definition geodeticToEcf (g : Geodetic.t) : Vec3.t :=
  (Vec3.mk (0x1.8ea23126e978dp+12 + Geodetic.height g) 0 0)%float.

(** The imports with each of the three orbits. *)
Definition imports_with (propagate : SatRec -> Date -> PositionAndVelocity)
  : Imports :=
  Build_Imports Math_tan Number_toString Date SatRec twoline2satrec propagate
    gstime degreesToRadians eciToGeodetic geodeticToEcf
    JulianDate JulianDate_now JulianDate_addSeconds JulianDate_toDate Z.lt.

Definition valid_orbit : Imports := imports_with propagate_valid.
Definition decayed_orbit : Imports := imports_with propagate_decayed.
Definition intermittent_orbit : Imports := imports_with propagate_intermittent.

End Sample.

(** [1e21], as a binary64 value: 10^21 = 5^21 * 2^21 is representable. *)
Definition num_1e21 : number := 0x1.b1ae4d6e2ef5p+69%float.

(** How far the loop counter is from its bound. *)
Definition remaining (i : Z) : nat := Z.to_nat (3600 - i).
Arguments remaining : simpl never.

Section Viewer.

Context {env : Imports}.

(** *** State *)

(** What [console.error] is called with. *)
Inductive console_entry :=
| Invalid_position_and_velocity (pv : PositionAndVelocity)
| Invalid_Cartesian_coordinates (p : Position).

(** The state the effect reads and writes: the console, the number of
    clock readings made so far, the samples added to [positionProperty]
    (in the order of the [addSample] calls; Cesium keeps them sorted by
    time, which is the same order when the instants increase) and the
    values passed to [setFootprintArea]. *)
Record World := {
  console : list console_entry;
  clock : nat;
  positionProperty : list (JulianDate * Cartesian3.t);
  footprintArea : list string
}.

(** Computations: state passing, with exceptions. *)
Definition M (A : Type) : Type := World -> completion A * World.

Definition ret {A} (a : A) : M A := fun w => (Normal a, w).

Definition bind {A B} (c : M A) (k : A -> M B) : M B :=
  fun w =>
    match c w with
    | (Normal a, w') => k a w'
    | (Throw e, w') => (Throw e, w')
    end.

Definition lift {A} (c : completion A) : M A := fun w => (c, w).

Notation "x <- c ;; k" := (bind c (fun x => k))
  (at level 61, c at next level, right associativity).
Notation "c ;;; k" := (bind c (fun _ => k))
  (at level 61, right associativity).

Definition console_error (e : console_entry) : M unit :=
  fun w => (Normal tt,
            {| console := console w ++ [e];
               clock := clock w;
               positionProperty := positionProperty w;
               footprintArea := footprintArea w |}).

Definition now : M JulianDate :=
  fun w => (Normal (JulianDate_now (clock w)),
            {| console := console w;
               clock := S (clock w);
               positionProperty := positionProperty w;
               footprintArea := footprintArea w |}).

Definition addSample (t : JulianDate) (p : Cartesian3.t) : M unit :=
  fun w => (Normal tt,
            {| console := console w;
               clock := clock w;
               positionProperty := positionProperty w ++ [(t, p)];
               footprintArea := footprintArea w |}).

Definition setFootprintArea (a : string) : M unit :=
  fun w => (Normal tt,
            {| console := console w;
               clock := clock w;
               positionProperty := positionProperty w;
               footprintArea := footprintArea w ++ [a] |}).

(** *** The helper functions *)

Definition calculatePositionAtTime (tleLine1 tleLine2 : string) (date : Date)
  : M Position :=
  let satellite := twoline2satrec tleLine1 tleLine2 in
  let positionAndVelocity := propagate satellite date in
  match position positionAndVelocity, velocity positionAndVelocity with
  | Some positionEci, Some _ =>
      let gmst := gstime date in
      let positionGd := eciToGeodetic positionEci gmst in
      let longitude := degreesToRadians (Geodetic.longitude positionGd) in
      let latitude := degreesToRadians (Geodetic.latitude positionGd) in
      let height := (Geodetic.height positionGd * num_1000)%float in
      let cartesianPosition :=
        geodeticToEcf (Geodetic.mk longitude latitude height) in
      ret {| x := Vec3.x cartesianPosition;
             y := Vec3.y cartesianPosition;
             z := Vec3.z cartesianPosition;
             height := Some height |}
  | _, _ =>
      console_error (Invalid_position_and_velocity positionAndVelocity) ;;;
      ret {| x := NaN; y := NaN; z := NaN; height := None |}
  end.

(** The radius and the area before formatting (the locals [fovRadius] and
    [footprintArea]). *)
Definition fovRadius_of (height fovAngle : number) : number :=
  (height * Math_tan (degreesToRadians (fovAngle / num_2)))%float.

Definition footprintArea_of (height fovAngle : number) : number :=
  let fovRadius := fovRadius_of height fovAngle in
  (Math_PI * fovRadius * fovRadius / num_1000000)%float.

Definition calculateFovFootprint (height fovAngle : number) : completion string :=
  toFixed Number_toString (footprintArea_of height fovAngle) 2.

(** *** The sampling loop of the effect *)

Definition loop_body (i : Z) : M unit :=
  t0 <- now ;;
  let julianDate := JulianDate_addSeconds t0 i in
  let date := JulianDate_toDate julianDate in
  position <- calculatePositionAtTime tleLine1 tleLine2 date ;;
  if isFinite (x position) && isFinite (y position) && isFinite (z position)
  then
    addSample julianDate (Cartesian3.mk (x position) (y position) (z position)) ;;;
    footprint <- lift (calculateFovFootprint (to_number (height position)) num_45) ;;
    setFootprintArea footprint
  else
    console_error (Invalid_Cartesian_coordinates position).

(** [for (let i = 0; i < 3600; i += 10) { ... }], from the value [i] of
    the counter. The loop ends because the distance to the bound shrinks. *)
Equations? for_loop (i : Z) (w : World) : completion unit * World
  by wf (remaining i) lt :=
  for_loop i w with inspect (i <? 3600) := {
    | exist _ true _ with loop_body i w := {
        | (Normal _, w') => for_loop (i + 10) w'
        | (Throw e, w') => (Throw e, w') }
    | exist _ false _ => (Normal tt, w) }.
Proof.
  match goal with H : (_ <? _) = true |- _ => apply Z.ltb_lt in H end.
  unfold remaining. lia.
Qed.

(** [const positionProperty = new SampledPositionProperty();] *)
Definition new_SampledPositionProperty : M unit :=
  fun w => (Normal tt,
            {| console := console w;
               clock := clock w;
               positionProperty := [];
               footprintArea := footprintArea w |}).

(** Lines 68 to 81 of the effect: the property is created, then filled. *)
Definition sampling_loop : M unit :=
  new_SampledPositionProperty ;;; for_loop 0.

(** *** The sweep, instant by instant *)

(** The instant of iteration [k] of a sweep that starts after [c0] clock
    readings. *)
Definition instant (c0 k : nat) : JulianDate :=
  JulianDate_addSeconds (JulianDate_now (c0 + k)) (10 * Z.of_nat k).

Definition propagation_fails (date : Date) : Prop :=
  let pv := propagate (twoline2satrec tleLine1 tleLine2) date in
  position pv = None \/ velocity pv = None.

(** The frame transform of an inertial position at [date], as
    [calculatePositionAtTime] performs it. *)
Definition transformed (date : Date) (positionEci : Vec3.t) : Position :=
  let positionGd := eciToGeodetic positionEci (gstime date) in
  let h := (Geodetic.height positionGd * num_1000)%float in
  let c := geodeticToEcf
             (Geodetic.mk (degreesToRadians (Geodetic.longitude positionGd))
                          (degreesToRadians (Geodetic.latitude positionGd)) h) in
  {| x := Vec3.x c; y := Vec3.y c; z := Vec3.z c; height := Some h |}.

(** The sentinel of a failed propagation. *)
Definition sentinel : Position :=
  {| x := NaN; y := NaN; z := NaN; height := None |}.

(** The value [calculatePositionAtTime tleLine1 tleLine2 date] returns. *)
Definition position_at (date : Date) : Position :=
  let pv := propagate (twoline2satrec tleLine1 tleLine2) date in
  match position pv, velocity pv with
  | Some p, Some _ => transformed date p
  | _, _ => sentinel
  end.

Definition finite_position (p : Position) : bool :=
  isFinite (x p) && isFinite (y p) && isFinite (z p).

Definition finite_sample (s : JulianDate * Cartesian3.t) : bool :=
  isFinite (Cartesian3.x (snd s)) && isFinite (Cartesian3.y (snd s))
  && isFinite (Cartesian3.z (snd s)).

(** What iteration [k] adds to the property: a sample, or nothing. *)
Definition sample_at (c0 k : nat) : list (JulianDate * Cartesian3.t) :=
  let t := instant c0 k in
  let p := position_at (JulianDate_toDate t) in
  if finite_position p then [(t, Cartesian3.mk (x p) (y p) (z p))] else [].

Definition sweep (c0 : nat) (ks : list nat) : list (JulianDate * Cartesian3.t) :=
  flat_map (sample_at c0) ks.

(** The propagation succeeds at [date] and the frame transform gives finite
    coordinates. *)
Definition propagates_validly (date : Date) : Prop :=
  exists p v,
    propagate (twoline2satrec tleLine1 tleLine2) date
    = {| position := Some p; velocity := Some v |}
    /\ finite_position (transformed date p) = true.

(** The state before the effect has run. *)
Definition initial_world : World :=
  {| console := []; clock := 0; positionProperty := []; footprintArea := [] |}.

End Viewer.

(** ** The rest of the component

    What the sweep leaves in the console and in the footprint state, and
    the functions the effect hands to Cesium and to React: the clock-tick
    listener, the callbacks that size the field-of-view cone, the
    mouse-move handler with the line it makes the page render, and the two
    colour handlers. *)

(** *** JavaScript values that are not Numbers *)

Module Value.

(** The values a picked object and its properties can be. An object is the
    list of its properties. *)
#[local] Unset Elimination Schemes.
Inductive t :=
| Undefined
| Null
| Boolean (b : bool)
| Number (n : number)
| String (s : string)
| Object (properties : list (string * t)).
#[local] Set Elimination Schemes.

(** Reading a property or calling a method of [undefined] or [null]
    throws a TypeError. *)
Inductive result (A : Type) :=
| Ok (a : A)
| TypeError.
Arguments Ok {A} a.
Arguments TypeError {A}.

Definition and_then {A B} (r : result A) (k : A -> result B) : result B :=
  match r with
  | Ok a => k a
  | TypeError => TypeError
  end.

(** ToBoolean: [undefined], [null], [false], zero, NaN and the empty string
    are falsy. *)
Definition truthy (v : t) : bool :=
  match v with
  | Undefined | Null => false
  | Boolean b => b
  | Number n => negb ((n =? 0)%float || PrimFloat.is_nan n)
  | String s => negb (String.eqb s EmptyString)
  | Object _ => true
  end.

(** [v.key], for the keys the component reads ([id] and [name], which no
    primitive value has). *)
Definition get (v : t) (key : string) : result t :=
  match v with
  | Undefined | Null => TypeError
  | Object properties =>
      Ok match find (fun p => String.eqb (fst p) key) properties with
         | Some p => snd p
         | None => Undefined
         end
  | _ => Ok Undefined
  end.

End Value.

(** More numeric literals of the source. *)
Definition num_0 : number := 0%float.
Definition num_0_5 : number := 0.5%float.
Definition num_1_5 : number := 1.5%float.
Definition num_22_5 : number := 22.5%float.

(** *** What the handlers import from Cesium

    [SampledPositionProperty_getValue samples t] is what
    [positionProperty.getValue(t)] returns when the property holds
    [samples]: a position, or [undefined] ([None]).
    [Color_fromCssColorString] returns [undefined] for a string that is
    not a CSS colour. *)
Class CesiumImports {env : Imports} := {
  SampledPositionProperty_getValue :
    list (JulianDate * Cartesian3.t) -> JulianDate -> option Cartesian3.t;
  Cartesian3_magnitude : Cartesian3.t -> number;
  Cesium_Math_toRadians : number -> number;
  Cesium_defined : Value.t -> bool;
  Color : Type;
  Color_RED : Color;
  Color_BLUE : Color;
  Color_fromCssColorString : string -> option Color;
  Color_withAlpha : Color -> number -> Color;
  Color_alpha : Color -> number
}.

Section Handlers.

Context {env : Imports} {cesium : CesiumImports}.

Notation "x <- c ;; k" := (bind c (fun x => k))
  (at level 61, c at next level, right associativity).

(** *** What the sweep logs and sets, instant by instant *)

(** What iteration [k] writes to the console: the failure of the
    propagation, from [calculatePositionAtTime], then the rejected
    position, from the loop. *)
Definition errors_at (c0 k : nat) : list console_entry :=
  let date := JulianDate_toDate (instant c0 k) in
  let pv := propagate (twoline2satrec tleLine1 tleLine2) date in
  let p := position_at date in
  match position pv, velocity pv with
  | Some _, Some _ => []
  | _, _ => [Invalid_position_and_velocity pv]
  end
  ++ (if finite_position p then [] else [Invalid_Cartesian_coordinates p]).

(** What iteration [k] passes to [setFootprintArea]. *)
Definition footprint_at (c0 k : nat) : list string :=
  let p := position_at (JulianDate_toDate (instant c0 k)) in
  if finite_position p then
    match calculateFovFootprint (to_number (height p)) num_45 with
    | Normal footprint => [footprint]
    | Throw _ => []
    end
  else [].

(** The footprint [a] is the one of the sample [s]: computed, for a field
    of view of 45 degrees, from the geodetic height at the instant of the
    sample, times 1000. *)
Definition footprint_of_sample (s : JulianDate * Cartesian3.t) (a : string) : Prop :=
  let date := JulianDate_toDate (fst s) in
  exists positionEci,
    position (propagate (twoline2satrec tleLine1 tleLine2) date) = Some positionEci
    /\ calculateFovFootprint
         (Geodetic.height (eciToGeodetic positionEci (gstime date)) * num_1000)%float
         num_45
       = Normal a.

Definition is_invalid_coordinates (e : console_entry) : bool :=
  match e with
  | Invalid_Cartesian_coordinates _ => true
  | _ => false
  end.

Definition is_invalid_position_and_velocity (e : console_entry) : bool :=
  match e with
  | Invalid_position_and_velocity _ => true
  | _ => false
  end.

(** *** The clock-tick listener (lines 118 to 126, and 175 to 183) *)

(** The body of the listener once [getValue] has returned. *)
Definition tick_update (currentCartesianPosition : option Cartesian3.t) : M unit :=
  match currentCartesianPosition with
  | Some p =>
      let currentHeight := Cartesian3_magnitude p in
      footprint <- lift (calculateFovFootprint currentHeight num_45) ;;
      setFootprintArea footprint
  | None => ret tt
  end.

(** The listener on the sampled property, at the time [viewer.clock] has. *)
Definition on_tick (currentJulianDate : JulianDate) : M unit :=
  fun w =>
    tick_update
      (SampledPositionProperty_getValue (positionProperty w) currentJulianDate) w.

(** The listener the CZML callback registers once it has found the
    satellite of the CZML document: the same body, on the position of that
    satellite, a Cesium property that gives a position or [undefined] at a
    time. *)
Definition czml_on_tick (position : JulianDate -> option Cartesian3.t)
  (currentJulianDate : JulianDate) : M unit :=
  tick_update (position currentJulianDate).

(** A tick once both listeners are registered: Cesium calls the listeners
    of an event in the order of their registration. *)
Definition on_tick_both (position : JulianDate -> option Cartesian3.t)
  (currentJulianDate : JulianDate) : M unit :=
  _ <- on_tick currentJulianDate ;;
  czml_on_tick position currentJulianDate.

(** *** The callbacks of the cone (lines 101 to 112) *)

Definition cone_length (lastPosition : option Cartesian3.t) : number :=
  match lastPosition with
  | Some p => (Cartesian3_magnitude p * num_1_5)%float
  | None => num_0
  end.

Definition cone_bottomRadius (lastPosition : option Cartesian3.t) : number :=
  let height :=
    match lastPosition with
    | Some p => Cartesian3_magnitude p
    | None => num_0
    end in
  (height * Math_tan (Cesium_Math_toRadians num_22_5))%float.

(** The callbacks read the clock, then the property. *)
Definition length_callback : M number :=
  t <- now ;;
  fun w => ret (cone_length (SampledPositionProperty_getValue (positionProperty w) t)) w.

Definition bottomRadius_callback : M number :=
  t <- now ;;
  fun w =>
    ret (cone_bottomRadius (SampledPositionProperty_getValue (positionProperty w) t)) w.

(** *** The mouse-move handler (lines 195 to 202) *)

(** The new [hoverInfo], from what [viewer.scene.pick] returned. *)
Definition on_mouse_move (pickedObject : Value.t) : Value.result Value.t :=
  Value.and_then
    (if Cesium_defined pickedObject then Value.get pickedObject "id"
     else Value.Ok (Value.Boolean false))
    (fun test =>
       if Value.truthy test then
         Value.and_then (Value.get pickedObject "id") (fun id =>
         Value.and_then (Value.get id "name") (fun name =>
         if Value.truthy name then Value.Ok name
         else
           Value.and_then (Value.get pickedObject "id") (fun id' =>
           Value.get id' "id")))
       else Value.Ok Value.Null).

(** What React renders for [{hoverInfo && <div>Hovered over: {hoverInfo}</div>}]:
    nothing, a text, or the line with the texts of its children. A
    boolean, [null] and [undefined] render nothing, a string and a number
    render as text, an object is not a valid child. *)
Inductive node :=
| Nothing
| Text (s : string)
| Div (children : list string).

Definition child (v : Value.t) : option node :=
  match v with
  | Value.Undefined | Value.Null | Value.Boolean _ => Some Nothing
  | Value.String s => Some (Text s)
  | Value.Number n => Some (Text (Number_toString n))
  | Value.Object _ => None
  end.

Definition hover_line (hoverInfo : Value.t) : option node :=
  if Value.truthy hoverInfo then
    match child hoverInfo with
    | Some (Text s) => Some (Div ["Hovered over: "%string; s])
    | Some _ => Some (Div ["Hovered over: "%string])
    | None => None
    end
  else child hoverInfo.

(** *** The colour handlers (lines 210 to 216) *)

(** The two colours of the component's state; the satellite's can be
    [undefined]. *)
Record Colors := {
  satelliteColor : option Color;
  fovColor : Color
}.

(** [useState(Cesium.Color.RED)] and
    [useState(Cesium.Color.BLUE.withAlpha(0.5))]. *)
Definition initial_colors : Colors :=
  {| satelliteColor := Some Color_RED;
     fovColor := Color_withAlpha Color_BLUE num_0_5 |}.

Definition handleSatelliteColorChange (value : string) (s : Colors)
  : Value.result Colors :=
  Value.Ok {| satelliteColor := Color_fromCssColorString value;
              fovColor := fovColor s |}.

Definition handleFovColorChange (value : string) (s : Colors)
  : Value.result Colors :=
  match Color_fromCssColorString value with
  | Some c =>
      Value.Ok {| satelliteColor := satelliteColor s;
                  fovColor := Color_withAlpha c num_0_5 |}
  | None => Value.TypeError
  end.

(** A change event of one of the two inputs, with [event.target.value]. *)
Inductive event :=
| SatelliteColorChange (value : string)
| FovColorChange (value : string).

(** The state after an event: a handler that throws sets nothing. *)
Definition after_event (s : Colors) (e : event) : Colors :=
  match match e with
        | SatelliteColorChange value => handleSatelliteColorChange value s
        | FovColorChange value => handleFovColorChange value s
        end with
  | Value.Ok s' => s'
  | Value.TypeError => s
  end.

Definition after_events (es : list event) : Colors :=
  fold_left after_event es initial_colors.

End Handlers.

(** *** Sample values of what the handlers import *)

Module SampleCesium.

(** The position of the sample at exactly [t], with no interpolation. *)
Definition getValue (samples : list (Z * Cartesian3.t)) (t : Z)
  : option Cartesian3.t :=
  match find (fun s => fst s =? t) samples with
  | Some s => Some (snd s)
  | None => None
  end.

Definition magnitude (p : Cartesian3.t) : number :=
  PrimFloat.sqrt (Cartesian3.x p * Cartesian3.x p
                  + Cartesian3.y p * Cartesian3.y p
                  + Cartesian3.z p * Cartesian3.z p)%float.

(** [Cesium.Math.RADIANS_PER_DEGREE] is pi / 180. *)
Definition toRadians (degrees : number) : number :=
  (degrees * 0x1.1df46a2529d39p-6)%float.

Definition defined (v : Value.t) : bool :=
  match v with
  | Value.Undefined | Value.Null => false
  | _ => true
  end.

(** Red, green, blue and alpha. *)
Definition Color : Type := (number * number * number * number)%type.
Definition RED : Color := (1, 0, 0, 1)%float.
Definition BLUE : Color := (0, 0, 1, 1)%float.

(** Four strings that are colours (lime and yellow in hexadecimal, green
    and yellow by name) and, of the other strings, those the examples use:
    [#12345] and [#gggggg], which no CSS form matches. *)
Definition fromCssColorString (s : string) : option Color :=
  if String.eqb s "#00ff00" then Some (0, 1, 0, 1)%float
  else if String.eqb s "#ffff00" then Some (1, 1, 0, 1)%float
  else if String.eqb s "green" then Some (0, 0x1.0101010101010p-1, 0, 1)%float
  else if String.eqb s "yellow" then Some (1, 1, 0, 1)%float
  else None.

Definition withAlpha (c : Color) (alpha : number) : Color :=
  let '(r, g, b, _) := c in (r, g, b, alpha).

Definition alpha (c : Color) : number := snd c.

Definition imports (env : Imports)
  (getValue : list (@JulianDate env * Cartesian3.t) -> @JulianDate env
              -> option Cartesian3.t)
  : @CesiumImports env :=
  @Build_CesiumImports env getValue magnitude toRadians defined
    Color RED BLUE fromCssColorString withAlpha alpha.

Definition valid_orbit : @CesiumImports Sample.valid_orbit :=
  imports Sample.valid_orbit getValue.
Definition decayed_orbit : @CesiumImports Sample.decayed_orbit :=
  imports Sample.decayed_orbit getValue.
Definition intermittent_orbit : @CesiumImports Sample.intermittent_orbit :=
  imports Sample.intermittent_orbit getValue.

(** The first sample of the valid orbit, alone in the property. *)
Definition first_sample : World (env := Sample.valid_orbit) :=
  @Build_World Sample.valid_orbit [] 0%nat
    [(0, (Cartesian3.mk 0x1.8cda88c49ba5ep+18 0 0)%float)] [].

(** A picked entity of the CZML document. *)
Definition picked_satellite : Value.t :=
  Value.Object
    [("primitive"%string, Value.Object []);
     ("id"%string,
      Value.Object [("id"%string, Value.String "Satellite/Geoeye1");
                    ("name"%string, Value.String "Geoeye 1")])].

End SampleCesium.

(** *** Signs *)

(** A binary64 value whose sign bit, if it has one, is [s]; NaN has none. *)
Definition signed (s : bool) (f : spec_float) : Prop :=
  match f with
  | S754_zero s' | S754_infinity s' | S754_finite s' _ _ => s' = s
  | S754_nan => True
  end.

(** ** Properties *)

(** *** Rounding is monotone: shifts and nearest-even *)

Lemma shr_1_locates (p q : Z) (r : shr_record) :
  locates p q r -> locates p (2 * q) (shr_1 r).
Proof.
  destruct r as [m rb sb]. unfold locates. cbn [shr_m shr_r shr_s].
  intros (Hq & Hm & Hp & Hr & Hs).
  destruct m as [|[m'|m'|]|m']; try lia; cbn [shr_1 shr_m shr_r shr_s orb].
  all: repeat split; try lia.
  all: subst rb sb.
  all: repeat match goal with
       | |- context [?a <=? ?b] => destruct (Z.leb_spec a b)
       | |- context [?a =? ?b] => destruct (Z.eqb_spec a b)
       end; cbn; try reflexivity; try lia.
Qed.

Lemma iter_pos_shr_1_locates (n : positive) :
  forall (p q : Z) (r : shr_record),
    locates p q r -> locates p (q * 2 ^ Z.pos n) (iter_pos shr_1 n r).
Proof.
  induction n as [n IH|n IH|]; intros p q r H; cbn [iter_pos].
  - replace (q * 2 ^ Z.pos n~1) with (2 * q * 2 ^ Z.pos n * 2 ^ Z.pos n).
    + apply IH, IH, shr_1_locates, H.
    + assert (E : 2 ^ Z.pos n~1 = 2 * (2 ^ Z.pos n * 2 ^ Z.pos n)).
      { rewrite <- Z.pow_add_r, <- Z.pow_succ_r by lia. f_equal. lia. }
      rewrite E. ring.
  - replace (q * 2 ^ Z.pos n~0) with (q * 2 ^ Z.pos n * 2 ^ Z.pos n).
    + apply IH, IH, H.
    + assert (E : 2 ^ Z.pos n~0 = 2 ^ Z.pos n * 2 ^ Z.pos n).
      { rewrite <- Z.pow_add_r by lia. f_equal. lia. }
      rewrite E. ring.
  - replace (q * 2 ^ 1) with (2 * q) by lia. apply shr_1_locates, H.
Qed.

Lemma locates_div (p q : Z) (r : shr_record) :
  locates p q r -> shr_m r = p / q /\ p - shr_m r * q = p mod q.
Proof.
  intros (Hq & Hm & Hp & _).
  assert (E : shr_m r = p / q).
  { apply (Z.div_unique_pos p q (shr_m r) (p - shr_m r * q)); lia. }
  split; [exact E|]. rewrite E at 1. pose proof (Z.div_mod p q). 
  rewrite Z.mod_eq by lia. lia.
Qed.

Lemma round_nearest_even_locates (p q : Z) (r : shr_record) :
  locates p q r ->
  round_nearest_even (shr_m r) (loc_of_shr_record r) = rne p q.
Proof.
  intro H. destruct (locates_div p q r H) as [Hm Hrho].
  destruct H as (Hq & Hm0 & Hp & Hr & Hs).
  unfold rne. cbv zeta. rewrite <- Hrho, <- Hm.
  destruct r as [m rb sb]. cbn [shr_m shr_r shr_s] in *.
  destruct (Z.leb_spec q (2 * (p - m * q))) as [Hge | Hlt];
    destruct (Z.eqb_spec (p - m * q) 0) as [H0 | H0];
    destruct (Z.eqb_spec (2 * (p - m * q)) q) as [Hh | Hh];
    subst rb sb; cbn [negb orb loc_of_shr_record round_nearest_even]; try lia.
  all: repeat match goal with
       | |- context [?a <? ?b] => destruct (Z.ltb_spec a b)
       end; try lia; try reflexivity.
Qed.

Lemma rne_mono (p1 q1 p2 q2 : Z) :
  0 < q1 -> 0 < q2 -> 0 <= p1 -> p1 * q2 <= p2 * q1 ->
  rne p1 q1 <= rne p2 q2.
Proof.
  intros Hq1 Hq2 Hp1 Hle. unfold rne. cbv zeta.
  pose proof (Z.div_mod p1 q1 ltac:(lia)) as D1.
  pose proof (Z.div_mod p2 q2 ltac:(lia)) as D2.
  pose proof (Z.mod_pos_bound p1 q1 Hq1) as B1.
  pose proof (Z.mod_pos_bound p2 q2 Hq2) as B2.
  set (m1 := p1 / q1) in *. set (m2 := p2 / q2) in *.
  set (r1 := p1 mod q1) in *. set (r2 := p2 mod q2) in *.
  assert (Hm : m1 <= m2).
  { apply Z.div_le_lower_bound; [lia|].
    (* q2 * m1 <= p2 *)
    assert (m1 * q1 <= p1) by lia.
    assert (m1 * q1 * q2 <= p2 * q1) by nia.
    nia. }
  destruct (Z.eq_dec m1 m2) as [E | NE].
  - (* same integer part: compare the fractions *)
    assert (Hr : r1 * q2 <= r2 * q1) by nia.
    repeat match goal with
    | |- context [?a <? ?b] => destruct (Z.ltb_spec a b)
    end; rewrite ?E; try lia; try (destruct (Z.even m2); lia); nia.
  - assert (m1 + 1 <= m2) by lia.
    repeat match goal with
    | |- context [?a <? ?b] => destruct (Z.ltb_spec a b)
    end; try lia; try (destruct (Z.even m1); destruct (Z.even m2); lia).
Qed.

(** *** Digits *)

Lemma digits2_pos_lower (m : positive) : 2 ^ (Z.pos (digits2_pos m) - 1) <= Z.pos m.
Proof.
  induction m as [m IH|m IH|]; cbn [digits2_pos]; [| |reflexivity].
  all: rewrite Pos2Z.inj_succ;
    replace (Z.succ (Z.pos (digits2_pos m)) - 1)
      with (Z.succ (Z.pos (digits2_pos m) - 1)) by lia;
    rewrite Z.pow_succ_r by lia; lia.
Qed.

Lemma digits2_pos_upper (m : positive) : Z.pos m < 2 ^ Z.pos (digits2_pos m).
Proof.
  induction m as [m IH|m IH|]; cbn [digits2_pos]; [| |reflexivity].
  all: rewrite Pos2Z.inj_succ, Z.pow_succ_r by lia; lia.
Qed.

Lemma Zdigits2_nonneg (m : Z) : 0 <= Zdigits2 m.
Proof. destruct m; cbn; lia. Qed.

Lemma Zdigits2_upper (m : Z) : 0 <= m -> m < 2 ^ Zdigits2 m.
Proof.
  destruct m as [|m|m]; cbn [Zdigits2]; try lia. intros _. apply digits2_pos_upper.
Qed.

Lemma Zdigits2_lower (m : Z) : 0 < m -> 2 ^ (Zdigits2 m - 1) <= m.
Proof.
  destruct m as [|m|m]; cbn [Zdigits2]; try lia. intros _. apply digits2_pos_lower.
Qed.

Lemma Zdigits2_le (m k : Z) : 0 <= k -> 0 <= m < 2 ^ k -> Zdigits2 m <= k.
Proof.
  intros Hk [H0 Hm]. destruct (Z.eq_dec m 0) as [-> | Hne]; [cbn; lia|].
  pose proof (Zdigits2_lower m ltac:(lia)) as Hl.
  pose proof (Zdigits2_nonneg m).
  destruct (Z.le_gt_cases (Zdigits2 m) k) as [|Hgt]; [assumption|].
  assert (2 ^ k <= 2 ^ (Zdigits2 m - 1)) by (apply Z.pow_le_mono_r; lia).
  lia.
Qed.

Lemma Zdigits2_ge (m k : Z) : 0 <= k -> 2 ^ k <= m -> k + 1 <= Zdigits2 m.
Proof.
  intros Hk Hm.
  assert (0 < 2 ^ k) by (apply Z.pow_pos_nonneg; lia).
  pose proof (Zdigits2_upper m ltac:(lia)) as Hu.
  pose proof (Zdigits2_nonneg m).
  destruct (Z.le_gt_cases (k + 1) (Zdigits2 m)) as [|Hlt]; [assumption|].
  assert (2 ^ Zdigits2 m <= 2 ^ k) by (apply Z.pow_le_mono_r; lia).
  lia.
Qed.

(** *** The exponent function of binary64 *)

Lemma fexp_64 (x : Z) : fexp prec emax x = Z.max (x - 53) (-1074).
Proof. reflexivity. Qed.

(** *** What [binary_round_aux] computes *)

Lemma shr_record_of_loc_m (m : Z) (l : location) : shr_m (shr_record_of_loc m l) = m.
Proof. destruct l as [|[ | | ]]; reflexivity. Qed.

Lemma shr_locates (p q : Z) (r : shr_record) (e n : Z) :
  locates p q r -> 0 <= n ->
  locates p (q * 2 ^ n) (fst (shr r e n)) /\ snd (shr r e n) = e + n.
Proof.
  intros H Hn. destruct n as [|n|n]; try lia; cbn [shr fst snd].
  - rewrite Z.mul_1_r, Z.add_0_r. auto.
  - split; [apply iter_pos_shr_1_locates, H | reflexivity].
Qed.

Lemma shr_nonpos (r : shr_record) (e n : Z) : n <= 0 -> shr r e n = (r, e).
Proof. destruct n; try lia; reflexivity. Qed.

Lemma rne_bounds (p q : Z) : 0 < q -> p / q <= rne p q <= p / q + 1.
Proof.
  intro Hq. unfold rne. cbv zeta.
  repeat match goal with
  | |- context [?a <? ?b] => destruct (Z.ltb_spec a b)
  end; try lia; destruct (Z.even (p / q)); lia.
Qed.

Lemma rne_shifted_bound (m e p q : Z) :
  0 < q -> 0 <= m -> m * q <= p < (m + 1) * q ->
  e <= fexp prec emax (Zdigits2 m + e) ->
  0 <= rne p (q * 2 ^ (fexp prec emax (Zdigits2 m + e) - e)) <= 2 ^ 53.
Proof.
  intros Hq Hm Hp Hpre.
  set (E := fexp prec emax (Zdigits2 m + e)) in *.
  assert (Hn : 0 <= E - e) by lia.
  assert (Hpow : 0 < 2 ^ (E - e)) by (apply Z.pow_pos_nonneg; lia).
  assert (Hq' : 0 < q * 2 ^ (E - e)) by nia.
  pose proof (rne_bounds p (q * 2 ^ (E - e)) Hq') as Hb.
  assert (Hd : Zdigits2 m <= 53 + (E - e)) by (subst E; rewrite fexp_64; lia).
  pose proof (Zdigits2_upper m Hm) as Hu.
  assert (Hle : 2 ^ Zdigits2 m <= 2 ^ (53 + (E - e)))
    by (apply Z.pow_le_mono_r; lia).
  rewrite Z.pow_add_r in Hle by lia.
  assert (H0 : 0 <= p / (q * 2 ^ (E - e))) by (apply Z.div_pos; nia).
  assert (H1 : p / (q * 2 ^ (E - e)) < 2 ^ 53).
  { apply Z.div_lt_upper_bound; [exact Hq'|]. nia. }
  lia.
Qed.

Lemma binary_round_aux_located (sx : bool) (m0 e : Z) (l : location) (p q : Z) :
  locates p q (shr_record_of_loc m0 l) ->
  e <= fexp prec emax (Zdigits2 m0 + e) ->
  let E := fexp prec emax (Zdigits2 m0 + e) in
  let M := rne p (q * 2 ^ (E - e)) in
  0 <= M <= 2 ^ 53
  /\ binary_round_aux prec emax sx m0 e l = rounded sx M E.
Proof.
  intros Hloc Hpre E M.
  assert (Hq : 0 < q) by apply Hloc.
  assert (Hm0 : 0 <= m0 /\ m0 * q <= p < (m0 + 1) * q).
  { destruct Hloc as (_ & H1 & H2 & _). rewrite shr_record_of_loc_m in *. auto. }
  assert (HEmin : -1074 <= E) by (subst E; rewrite fexp_64; lia).
  assert (Hn : 0 <= E - e) by (subst E; lia).
  assert (Hpow : 0 < 2 ^ (E - e)) by (apply Z.pow_pos_nonneg; lia).
  destruct (shr_locates p q (shr_record_of_loc m0 l) e (E - e) Hloc Hn)
    as [Hloc1 He1].
  set (r1 := fst (shr (shr_record_of_loc m0 l) e (E - e))) in *.
  pose proof (round_nearest_even_locates _ _ _ Hloc1) as Hrne. fold M in Hrne.
  destruct (locates_div _ _ _ Hloc1) as [Hm1 _].
  (* the mantissa after the shift has at most 53 digits *)
  assert (Hm1b : 0 <= shr_m r1 < 2 ^ 53).
  { destruct Hloc1 as (Hq1 & Hm1' & Hp1 & _). split; [exact Hm1'|].
    assert (Hd : Zdigits2 m0 <= 53 + (E - e)) by (subst E; rewrite fexp_64; lia).
    pose proof (Zdigits2_upper m0 ltac:(lia)) as Hu.
    assert (Hle : 2 ^ Zdigits2 m0 <= 2 ^ (53 + (E - e)))
      by (apply Z.pow_le_mono_r; lia).
    rewrite Z.pow_add_r in Hle by lia.
    assert (shr_m r1 * 2 ^ (E - e) <= m0) by nia.
    nia. }
  pose proof (rne_bounds p (q * 2 ^ (E - e)) ltac:(nia)) as Hb.
  fold M in Hb. rewrite <- Hm1 in Hb.
  split; [lia|].
  unfold binary_round_aux, shr_fexp.
  fold E. change (E - e) with (E - e).
  destruct (shr (shr_record_of_loc m0 l) e (E - e)) as [r1' e1] eqn:Hshr.
  cbn [fst snd] in *. subst r1 e1. rewrite Hrne.
  replace (e + (E - e)) with E by lia.
  change (emax - prec) with 971.
  unfold rounded.
  destruct (Z.eqb_spec M 0) as [HM0 | HM0].
  - rewrite HM0. cbn [Zdigits2]. rewrite shr_nonpos by (rewrite fexp_64; lia).
    reflexivity.
  - destruct (Z.ltb_spec M (2 ^ 53)) as [Hlt | Hge].
    + assert (Hd : Zdigits2 M <= 53) by (apply Zdigits2_le; lia).
      rewrite shr_nonpos by (rewrite fexp_64; lia).
      cbn [shr_m shr_record_of_loc].
      destruct M as [|M'|M']; try lia. reflexivity.
    + assert (HM : M = 2 ^ 53) by lia. rewrite HM.
      change (Zdigits2 (2 ^ 53)) with 54.
      replace (fexp prec emax (54 + E) - E) with 1
        by (rewrite fexp_64; lia).
      reflexivity.
Qed.

(** *** Rounding is monotone *)

Lemma SFleb_finite (m1 m2 : positive) (e1 e2 : Z) :
  e1 < e2 \/ (e1 = e2 /\ Z.pos m1 <= Z.pos m2) ->
  SFleb (S754_finite false m1 e1) (S754_finite false m2 e2) = true.
Proof.
  unfold SFleb, SFcompare. intros [H | [-> H]].
  - apply Z.compare_lt_iff in H. rewrite H. reflexivity.
  - rewrite Z.compare_refl, Pos.compare_cont_spec. cbn [Pos.switch_Eq].
    destruct (Pos.compare_spec m1 m2); try reflexivity. lia.
Qed.

Lemma SFleb_rounded (M1 E1 M2 E2 : Z) :
  0 <= M1 <= 2 ^ 53 -> 0 <= M2 <= 2 ^ 53 ->
  (E1 = E2 /\ M1 <= M2) \/ (E1 < E2 /\ 2 ^ 52 <= M2) ->
  SFleb (rounded false M1 E1) (rounded false M2 E2) = true.
Proof.
  intros H1 H2 H. unfold rounded.
  assert (P52 : (0 < 2 ^ 52) /\ 2 ^ 52 < 2 ^ 53) by (split; reflexivity).
  repeat match goal with
  | |- context [?a =? ?b] => destruct (Z.eqb_spec a b)
  | |- context [?a <? ?b] => destruct (Z.ltb_spec a b)
  | |- context [?a <=? ?b] => destruct (Z.leb_spec a b)
  end; try reflexivity; try lia.
  all: apply SFleb_finite.
  all: destruct H as [[HE HM] | [HE HM]]; try lia.
  all: try (right; split; [lia|]; rewrite !Z2Pos.id by lia; lia).
  all: try (left; lia).
Qed.

Lemma rounded_mono (q m1 e1 p1 m2 e2 p2 c : Z) :
  0 < q ->
  0 <= m1 -> m1 * q <= p1 < (m1 + 1) * q ->
  e1 <= fexp prec emax (Zdigits2 m1 + e1) ->
  0 <= m2 -> m2 * q <= p2 < (m2 + 1) * q ->
  e2 <= fexp prec emax (Zdigits2 m2 + e2) ->
  c <= e1 -> c <= e2 ->
  p1 * 2 ^ (e1 - c) <= p2 * 2 ^ (e2 - c) ->
  SFleb
    (rounded false (rne p1 (q * 2 ^ (fexp prec emax (Zdigits2 m1 + e1) - e1)))
       (fexp prec emax (Zdigits2 m1 + e1)))
    (rounded false (rne p2 (q * 2 ^ (fexp prec emax (Zdigits2 m2 + e2) - e2)))
       (fexp prec emax (Zdigits2 m2 + e2)))
  = true.
Proof.
  intros Hq Hm1 Hp1 Hpre1 Hm2 Hp2 Hpre2 Hc1 Hc2 Hle.
  pose proof (rne_shifted_bound m1 e1 p1 q Hq Hm1 Hp1 Hpre1) as HM1.
  pose proof (rne_shifted_bound m2 e2 p2 q Hq Hm2 Hp2 Hpre2) as HM2.
  set (E1 := fexp prec emax (Zdigits2 m1 + e1)) in *.
  set (E2 := fexp prec emax (Zdigits2 m2 + e2)) in *.
  assert (HA1 : 0 < 2 ^ (e1 - c)) by (apply Z.pow_pos_nonneg; lia).
  assert (HA2 : 0 < 2 ^ (e2 - c)) by (apply Z.pow_pos_nonneg; lia).
  pose proof (Zdigits2_nonneg m1) as Hd1. pose proof (Zdigits2_nonneg m2) as Hd2.
  (* the exponents are ordered like the values *)
  assert (HE : E1 <= E2).
  { destruct (Z.eq_dec m1 0) as [-> | Hne].
    - subst E1 E2. cbn [Zdigits2] in *. rewrite !fexp_64 in *. lia.
    - assert (Hd : Zdigits2 m1 + e1 <= Zdigits2 m2 + e2).
      { pose proof (Zdigits2_lower m1 ltac:(lia)) as HB1.
        pose proof (Zdigits2_upper m2 Hm2) as HB2.
        assert (Hdg1 : 1 <= Zdigits2 m1).
        { destruct m1; cbn in *; lia. }
        set (B1 := 2 ^ (Zdigits2 m1 - 1)) in *. set (B2 := 2 ^ Zdigits2 m2) in *.
        set (A1 := 2 ^ (e1 - c)) in *. set (A2 := 2 ^ (e2 - c)) in *.
        assert (HB1pos : 0 < B1) by (apply Z.pow_pos_nonneg; lia).
        assert (S0 : B1 * q <= p1).
        { apply Z.le_trans with (m1 * q); [|lia].
          apply Z.mul_le_mono_nonneg_r; lia. }
        assert (S1 : B1 * q * A1 <= p1 * A1)
          by (apply Z.mul_le_mono_nonneg_r; lia).
        assert (S0' : p2 < B2 * q).
        { apply Z.lt_le_trans with ((m2 + 1) * q); [lia|].
          apply Z.mul_le_mono_nonneg_r; lia. }
        assert (S2 : p2 * A2 < B2 * q * A2)
          by (apply Z.mul_lt_mono_pos_r; lia).
        assert (S3 : B1 * A1 * q < B2 * A2 * q) by lia.
        assert (S4 : B1 * A1 < B2 * A2) by nia.
        subst B1 B2 A1 A2. rewrite <- !Z.pow_add_r in S4 by lia.
        apply Z.pow_lt_mono_r_iff in S4; lia. }
      subst E1 E2. rewrite !fexp_64. lia. }
  apply SFleb_rounded; [exact HM1 | exact HM2 |].
  destruct (Z.eq_dec E1 E2) as [Heq | Hne]; [left | right]; (split; [lia|]).
  - (* same exponent: the mantissas are ordered *)
    assert (Hn1 : 0 <= E1 - e1) by lia. assert (Hn2 : 0 <= E2 - e2) by lia.
    assert (HN1 : 0 < 2 ^ (E1 - e1)) by (apply Z.pow_pos_nonneg; lia).
    assert (HN2 : 0 < 2 ^ (E2 - e2)) by (apply Z.pow_pos_nonneg; lia).
    apply rne_mono; try nia.
    assert (HT : 2 ^ (e1 - c) * 2 ^ (E1 - e1) = 2 ^ (e2 - c) * 2 ^ (E2 - e2)).
    { rewrite <- !Z.pow_add_r by lia. f_equal. lia. }
    set (N1 := 2 ^ (E1 - e1)) in *. set (N2 := 2 ^ (E2 - e2)) in *.
    set (A1 := 2 ^ (e1 - c)) in *. set (A2 := 2 ^ (e2 - c)) in *.
    assert (S1 : p1 * A1 * (N1 * N2) <= p2 * A2 * (N1 * N2))
      by (apply Z.mul_le_mono_nonneg_r; nia).
    assert (S2 : (p1 * N2) * (A1 * N1) <= (p2 * N1) * (A1 * N1)).
    { replace (p1 * N2 * (A1 * N1)) with (p1 * A1 * (N1 * N2)) by ring.
      replace (p2 * N1 * (A1 * N1)) with (p2 * (A2 * N2) * N1)
        by (rewrite <- HT; ring).
      replace (p2 * (A2 * N2) * N1) with (p2 * A2 * (N1 * N2)) by ring.
      exact S1. }
    assert (S3 : p1 * N2 <= p2 * N1).
    { apply (Z.mul_le_mono_pos_r _ _ (A1 * N1)); [nia | exact S2]. }
    nia.
  - (* a larger exponent: the larger value has a full mantissa *)
    assert (HE2 : E2 = Zdigits2 m2 + e2 - 53) by (subst E1 E2; rewrite !fexp_64 in *; lia).
    assert (Hm2pos : 0 < m2).
    { destruct (Z.eq_dec m2 0) as [-> | ?]; [|lia].
      subst E1 E2. cbn [Zdigits2] in *. rewrite !fexp_64 in *. lia. }
    pose proof (Zdigits2_lower m2 Hm2pos) as HB.
    assert (HN2 : 0 < 2 ^ (E2 - e2)) by (apply Z.pow_pos_nonneg; lia).
    assert (Hsplit : 2 ^ (Zdigits2 m2 - 1) = 2 ^ 52 * 2 ^ (E2 - e2)).
    { rewrite <- Z.pow_add_r by lia. f_equal. lia. }
    assert (Hfl : 2 ^ 52 <= p2 / (q * 2 ^ (E2 - e2))).
    { apply Z.div_le_lower_bound; [nia|]. rewrite Hsplit in HB. nia. }
    pose proof (rne_bounds p2 (q * 2 ^ (E2 - e2)) ltac:(nia)). lia.
Qed.

(** *** Valid binary64 values *)

Lemma valid_finite (s : bool) (m : positive) (e : Z) :
  valid_binary (S754_finite s m e) = true ->
  -1074 <= e <= 971
  /\ Z.pos (digits2_pos m) <= 53
  /\ (-1074 < e -> Z.pos (digits2_pos m) = 53).
Proof.
  cbn [SpecFloat.valid_binary]. unfold bounded, canonical_mantissa.
  intro H. apply andb_prop in H as [H1 H2].
  apply Z.eqb_eq in H1. apply Z.leb_le in H2.
  rewrite fexp_64 in H1. change (emax - prec) with 971 in H2. lia.
Qed.

Lemma SFleb_units (m1 m2 : positive) (e1 e2 : Z) :
  valid_binary (S754_finite false m1 e1) = true ->
  valid_binary (S754_finite false m2 e2) = true ->
  SFleb (S754_finite false m1 e1) (S754_finite false m2 e2) = true ->
  units m1 e1 <= units m2 e2.
Proof.
  intros V1 V2. apply valid_finite in V1 as (He1 & Hd1 & _).
  apply valid_finite in V2 as (He2 & Hd2 & Hn2).
  unfold SFleb, SFcompare, units.
  destruct (Z.compare_spec e1 e2) as [-> | Hlt | Hgt]; try discriminate.
  - rewrite Pos.compare_cont_spec. cbn [Pos.switch_Eq].
    destruct (Pos.compare_spec m1 m2) as [-> | H | H]; try discriminate; intros _.
    + lia.
    + assert (0 < 2 ^ (e2 + 1074)) by (apply Z.pow_pos_nonneg; lia). nia.
  - intros _.
    pose proof (digits2_pos_upper m1) as U1.
    pose proof (digits2_pos_lower m2) as L2.
    rewrite (Hn2 ltac:(lia)) in L2. change (2 ^ (53 - 1)) with (2 ^ 52) in L2.
    assert (U1' : Z.pos m1 < 2 ^ 53).
    { eapply Z.lt_le_trans; [exact U1|]. apply Z.pow_le_mono_r; lia. }
    assert (P1 : 0 < 2 ^ (e1 + 1074)) by (apply Z.pow_pos_nonneg; lia).
    assert (P2 : 2 * 2 ^ (e1 + 1074) <= 2 ^ (e2 + 1074)).
    { rewrite <- Z.pow_succ_r by lia. apply Z.pow_le_mono_r; lia. }
    change (2 ^ 53) with (2 ^ 52 * 2) in U1'.
    assert (Z.pos m1 * 2 ^ (e1 + 1074) <= 2 ^ 52 * 2 * 2 ^ (e1 + 1074)) by nia.
    assert (2 ^ 52 * (2 * 2 ^ (e1 + 1074)) <= 2 ^ 52 * 2 ^ (e2 + 1074)) by nia.
    assert (2 ^ 52 * 2 ^ (e2 + 1074) <= Z.pos m2 * 2 ^ (e2 + 1074)) by nia.
    lia.
Qed.

(** *** Multiplication of positive finite values *)

Lemma locates_exact (m : Z) : 0 <= m -> locates m 1 (shr_record_of_loc m loc_Exact).
Proof.
  intro Hm. unfold locates. cbn [shr_record_of_loc shr_m shr_r shr_s].
  replace (m - m * 1) with 0 by lia. cbn. repeat split; lia.
Qed.

Lemma digits_mul (m1 m2 : positive) :
  Z.pos (digits2_pos m1) + Z.pos (digits2_pos m2) - 1
  <= Zdigits2 (Z.pos (m1 * m2)).
Proof.
  pose proof (digits2_pos_lower m1) as L1. pose proof (digits2_pos_lower m2) as L2.
  replace (Z.pos (digits2_pos m1) + Z.pos (digits2_pos m2) - 1)
    with ((Z.pos (digits2_pos m1) - 1) + (Z.pos (digits2_pos m2) - 1) + 1) by lia.
  apply Zdigits2_ge; [lia|].
  rewrite Z.pow_add_r by lia. rewrite Pos2Z.inj_mul.
  apply Z.mul_le_mono_nonneg; try lia; apply Z.pow_nonneg; lia.
Qed.

Lemma mul_prenormalized (m1 m2 : positive) (e1 e2 : Z) :
  valid_binary (S754_finite false m1 e1) = true ->
  valid_binary (S754_finite false m2 e2) = true ->
  e1 + e2 <= fexp prec emax (Zdigits2 (Z.pos (m1 * m2)) + (e1 + e2)).
Proof.
  intros V1 V2. apply valid_finite in V1 as (He1 & Hd1 & Hn1).
  apply valid_finite in V2 as (He2 & Hd2 & Hn2).
  pose proof (digits_mul m1 m2) as Hd. rewrite fexp_64.
  assert (0 < Z.pos (digits2_pos m1)) by lia.
  assert (0 < Z.pos (digits2_pos m2)) by lia.
  destruct (Z.eq_dec e1 (-1074)) as [E1 | N1];
    destruct (Z.eq_dec e2 (-1074)) as [E2 | N2]; try lia.
  all: try specialize (Hn1 ltac:(lia)); try specialize (Hn2 ltac:(lia)); lia.
Qed.

Lemma SFmul_finite (s1 s2 : bool) (m1 m2 : positive) (e1 e2 : Z) :
  valid_binary (S754_finite false m1 e1) = true ->
  valid_binary (S754_finite false m2 e2) = true ->
  SFmul prec emax (S754_finite s1 m1 e1) (S754_finite s2 m2 e2)
  = rounded (xorb s1 s2) (mul_mantissa m1 m2 e1 e2) (mul_exponent m1 m2 e1 e2).
Proof.
  intros V1 V2. cbn [SFmul].
  apply (binary_round_aux_located (xorb s1 s2) (Z.pos (m1 * m2)) (e1 + e2)
           loc_Exact (Z.pos (m1 * m2)) 1).
  - apply locates_exact. lia.
  - apply mul_prenormalized; assumption.
Qed.

Lemma SFmul_finite_mono (a1 a2 b1 b2 : positive) (ea1 ea2 eb1 eb2 : Z) :
  valid_binary (S754_finite false a1 ea1) = true ->
  valid_binary (S754_finite false a2 ea2) = true ->
  valid_binary (S754_finite false b1 eb1) = true ->
  valid_binary (S754_finite false b2 eb2) = true ->
  SFleb (S754_finite false a1 ea1) (S754_finite false a2 ea2) = true ->
  SFleb (S754_finite false b1 eb1) (S754_finite false b2 eb2) = true ->
  SFleb (rounded false (mul_mantissa a1 b1 ea1 eb1) (mul_exponent a1 b1 ea1 eb1))
        (rounded false (mul_mantissa a2 b2 ea2 eb2) (mul_exponent a2 b2 ea2 eb2))
  = true.
Proof.
  intros Va1 Va2 Vb1 Vb2 Ha Hb.
  pose proof (SFleb_units _ _ _ _ Va1 Va2 Ha) as Ua.
  pose proof (SFleb_units _ _ _ _ Vb1 Vb2 Hb) as Ub.
  pose proof (valid_finite _ _ _ Va1) as (Ba1 & _).
  pose proof (valid_finite _ _ _ Va2) as (Ba2 & _).
  pose proof (valid_finite _ _ _ Vb1) as (Bb1 & _).
  pose proof (valid_finite _ _ _ Vb2) as (Bb2 & _).
  unfold mul_mantissa, mul_exponent.
  apply (rounded_mono 1 (Z.pos (a1 * b1)) (ea1 + eb1) (Z.pos (a1 * b1))
           (Z.pos (a2 * b2)) (ea2 + eb2) (Z.pos (a2 * b2)) (-2148)); try lia.
  - apply mul_prenormalized; assumption.
  - apply mul_prenormalized; assumption.
  - unfold units in Ua, Ub.
    replace (ea1 + eb1 - -2148) with ((ea1 + 1074) + (eb1 + 1074)) by lia.
    replace (ea2 + eb2 - -2148) with ((ea2 + 1074) + (eb2 + 1074)) by lia.
    rewrite (Z.pow_add_r 2 (ea1 + 1074) (eb1 + 1074)) by lia.
    rewrite (Z.pow_add_r 2 (ea2 + 1074) (eb2 + 1074)) by lia.
    rewrite !Pos2Z.inj_mul.
    assert (0 < 2 ^ (ea1 + 1074)) by (apply Z.pow_pos_nonneg; lia).
    assert (0 < 2 ^ (eb1 + 1074)) by (apply Z.pow_pos_nonneg; lia).
    replace (Z.pos a1 * Z.pos b1 * (2 ^ (ea1 + 1074) * 2 ^ (eb1 + 1074)))
      with ((Z.pos a1 * 2 ^ (ea1 + 1074)) * (Z.pos b1 * 2 ^ (eb1 + 1074))) by ring.
    replace (Z.pos a2 * Z.pos b2 * (2 ^ (ea2 + 1074) * 2 ^ (eb2 + 1074)))
      with ((Z.pos a2 * 2 ^ (ea2 + 1074)) * (Z.pos b2 * 2 ^ (eb2 + 1074))) by ring.
    apply Z.mul_le_mono_nonneg; try lia; nia.
Qed.

(** *** Division by one million *)

Lemma Prim2SF_million : Prim2SF 1000000 = S754_finite false million_m million_e.
Proof. reflexivity. Qed.

Lemma million_bounds : 2 ^ 52 <= Z.pos million_m < 2 ^ 53.
Proof. split; [discriminate | reflexivity]. Qed.

Lemma shr_record_of_new_location (m q r : Z) :
  Z.even m = true -> 0 < m -> 0 <= q -> 0 <= r < m ->
  locates (m * q + r) m (shr_record_of_loc q (new_location m r)).
Proof.
  intros Hev Hm Hq Hr. unfold new_location. rewrite Hev.
  unfold new_location_even, locates.
  rewrite shr_record_of_loc_m.
  replace (m * q + r - q * m) with r by ring.
  split; [lia|]. split; [lia|]. split; [nia|].
  destruct (Z.eqb_spec r 0) as [-> | Hr0].
  - cbn [shr_record_of_loc shr_r shr_s]. split.
    + symmetry. apply Z.leb_gt. lia.
    + reflexivity.
  - destruct (Z.compare_spec (2 * r) m) as [H | H | H];
      cbn [shr_record_of_loc shr_r shr_s orb negb].
    + rewrite H. rewrite Z.leb_refl, Z.eqb_refl. split; reflexivity.
    + split.
      * symmetry. apply Z.leb_gt. lia.
      * destruct (Z.eqb_spec (2 * r) m); [lia | reflexivity].
    + split.
      * symmetry. apply Z.leb_le. lia.
      * destruct (Z.eqb_spec (2 * r) m); [lia | reflexivity].
Qed.

Lemma div_exponent_bounds (m : positive) (e : Z) :
  valid_binary (S754_finite false m e) = true ->
  -1074 <= div_exponent m e /\ 1 <= e + 33 - div_exponent m e.
Proof.
  intro V. apply valid_finite in V as (He & Hd & _).
  unfold div_exponent. rewrite fexp_64. lia.
Qed.

Lemma SFdiv_core_million (m : positive) (e : Z) :
  valid_binary (S754_finite false m e) = true ->
  exists l,
    SFdiv_core_binary prec emax (Z.pos m) e (Z.pos million_m) million_e
    = (div_numerator m e / Z.pos million_m, div_exponent m e, l)
    /\ locates (div_numerator m e) (Z.pos million_m)
         (shr_record_of_loc (div_numerator m e / Z.pos million_m) l).
Proof.
  intro V. destruct (div_exponent_bounds m e V) as [Hlo Hs].
  apply valid_finite in V as (He & Hd & _).
  unfold SFdiv_core_binary.
  change (Zdigits2 (Z.pos million_m)) with 53. cbn [Zdigits2].
  unfold million_e.
  replace (Z.pos (digits2_pos m) + e - (53 + -33))
    with (Z.pos (digits2_pos m) + e - 20) by lia.
  fold (div_exponent m e).
  replace (Z.min (div_exponent m e) (e - -33)) with (div_exponent m e) by lia.
  set (s := e - -33 - div_exponent m e).
  assert (Hspos : 0 < s) by (subst s; lia).
  assert (Hm' : (match s with
                 | 0 => Z.pos m
                 | Z.pos _ => Z.shiftl (Z.pos m) s
                 | Z.neg _ => 0
                 end) = div_numerator m e).
  { unfold div_numerator. replace (e + 33 - div_exponent m e) with s by (subst s; lia).
    destruct s; try lia. apply Z.shiftl_mul_pow2. lia. }
  rewrite Hm'.
  assert (Hde : Z.div_eucl (div_numerator m e) (Z.pos million_m)
                = (div_numerator m e / Z.pos million_m,
                   div_numerator m e mod Z.pos million_m)).
  { unfold Z.div, Z.modulo. destruct (Z.div_eucl _ _). reflexivity. }
  rewrite Hde.
  eexists. split; [reflexivity|].
  assert (Hnum : 0 <= div_numerator m e).
  { unfold div_numerator. apply Z.mul_nonneg_nonneg; [lia|]. apply Z.pow_nonneg. lia. }
  pose proof (Z.mod_pos_bound (div_numerator m e) (Z.pos million_m) ltac:(reflexivity)).
  pose proof (Z.div_pos (div_numerator m e) (Z.pos million_m) Hnum ltac:(reflexivity)).
  rewrite (Z.div_mod (div_numerator m e) (Z.pos million_m)) at 1 by discriminate.
  apply shr_record_of_new_location; try assumption; reflexivity.
Qed.

Lemma div_quotient_bounds (m : positive) (e : Z) :
  valid_binary (S754_finite false m e) = true ->
  0 <= div_numerator m e / Z.pos million_m
  /\ div_numerator m e / Z.pos million_m * Z.pos million_m <= div_numerator m e
     < (div_numerator m e / Z.pos million_m + 1) * Z.pos million_m.
Proof.
  intro V. destruct (div_exponent_bounds m e V) as [Hlo Hs].
  assert (Hnum : 0 <= div_numerator m e).
  { unfold div_numerator. apply Z.mul_nonneg_nonneg; [lia|]. apply Z.pow_nonneg. lia. }
  pose proof (Z.mod_pos_bound (div_numerator m e) (Z.pos million_m) ltac:(reflexivity)).
  pose proof (Z.div_pos (div_numerator m e) (Z.pos million_m) Hnum ltac:(reflexivity)).
  pose proof (Z.div_mod (div_numerator m e) (Z.pos million_m) ltac:(discriminate)).
  lia.
Qed.

Lemma div_prenormalized (m : positive) (e : Z) :
  valid_binary (S754_finite false m e) = true ->
  div_exponent m e
  <= fexp prec emax (Zdigits2 (div_numerator m e / Z.pos million_m) + div_exponent m e).
Proof.
  intro V. destruct (div_exponent_bounds m e V) as [Hlo Hs].
  destruct (div_quotient_bounds m e V) as [Hq _].
  apply valid_finite in V as (He & Hd & _).
  set (s := e + 33 - div_exponent m e) in *.
  set (q := div_numerator m e / Z.pos million_m) in *.
  assert (Hdig : Z.pos (digits2_pos m) + s - 53 <= Zdigits2 q).
  { pose proof (Zdigits2_nonneg q).
    destruct (Z.le_gt_cases 0 (Z.pos (digits2_pos m) + s - 54)) as [Hk | Hk]; [|lia].
    replace (Z.pos (digits2_pos m) + s - 53)
      with (Z.pos (digits2_pos m) + s - 54 + 1) by lia.
    apply Zdigits2_ge; [exact Hk|].
    subst q. apply Z.div_le_lower_bound; [reflexivity|].
    unfold div_numerator. fold s.
    pose proof (digits2_pos_lower m) as Hl.
    pose proof million_bounds as [_ Hm6].
    assert (Hps : 0 < 2 ^ s) by (apply Z.pow_pos_nonneg; lia).
    assert (Hpk : 0 < 2 ^ (Z.pos (digits2_pos m) + s - 54))
      by (apply Z.pow_pos_nonneg; lia).
    assert (Hsplit : 2 ^ 53 * 2 ^ (Z.pos (digits2_pos m) + s - 54)
                     = 2 ^ (Z.pos (digits2_pos m) - 1) * 2 ^ s).
    { rewrite <- !Z.pow_add_r by lia. f_equal. lia. }
    apply Z.le_trans with (2 ^ 53 * 2 ^ (Z.pos (digits2_pos m) + s - 54)).
    - apply Z.mul_le_mono_nonneg_r; lia.
    - rewrite Hsplit. apply Z.mul_le_mono_nonneg_r; lia. }
  clearbody q. subst s. unfold div_exponent in *. rewrite !fexp_64 in *. lia.
Qed.

Lemma SFdiv_million (s : bool) (m : positive) (e : Z) :
  valid_binary (S754_finite false m e) = true ->
  SFdiv prec emax (S754_finite s m e) (S754_finite false million_m million_e)
  = rounded (xorb s false) (quotient_mantissa m e) (quotient_exponent m e).
Proof.
  intro V. cbn [SFdiv].
  destruct (SFdiv_core_million m e V) as (l & Hcore & Hloc).
  rewrite Hcore.
  apply (binary_round_aux_located (xorb s false)
           (div_numerator m e / Z.pos million_m) (div_exponent m e) l
           (div_numerator m e) (Z.pos million_m) Hloc).
  apply div_prenormalized. exact V.
Qed.

Lemma SFdiv_million_mono (m1 m2 : positive) (e1 e2 : Z) :
  valid_binary (S754_finite false m1 e1) = true ->
  valid_binary (S754_finite false m2 e2) = true ->
  SFleb (S754_finite false m1 e1) (S754_finite false m2 e2) = true ->
  SFleb (rounded false (quotient_mantissa m1 e1) (quotient_exponent m1 e1))
        (rounded false (quotient_mantissa m2 e2) (quotient_exponent m2 e2))
  = true.
Proof.
  intros V1 V2 Hle.
  pose proof (SFleb_units _ _ _ _ V1 V2 Hle) as Hu.
  destruct (div_exponent_bounds m1 e1 V1) as [Hlo1 Hs1].
  destruct (div_exponent_bounds m2 e2 V2) as [Hlo2 Hs2].
  destruct (div_quotient_bounds m1 e1 V1) as [Hq1 Hb1].
  destruct (div_quotient_bounds m2 e2 V2) as [Hq2 Hb2].
  pose proof (valid_finite _ _ _ V1) as (He1 & _).
  pose proof (valid_finite _ _ _ V2) as (He2 & _).
  unfold quotient_mantissa, quotient_exponent.
  apply (rounded_mono (Z.pos million_m)
           (div_numerator m1 e1 / Z.pos million_m) (div_exponent m1 e1)
           (div_numerator m1 e1)
           (div_numerator m2 e2 / Z.pos million_m) (div_exponent m2 e2)
           (div_numerator m2 e2) (-1074)); try assumption; try lia.
  - apply div_prenormalized; exact V1.
  - apply div_prenormalized; exact V2.
  - unfold div_numerator, units in *.
    assert (K : forall (m : positive) (e e' : Z),
               -1074 <= e -> -1074 <= e' -> 1 <= e + 33 - e' ->
               Z.pos m * 2 ^ (e + 33 - e') * 2 ^ (e' - -1074)
               = Z.pos m * 2 ^ (e + 1074) * 2 ^ 33).
    { intros m e e' H1 H2 H3.
      rewrite <- !Z.mul_assoc, <- !Z.pow_add_r by lia. do 2 f_equal. lia. }
    rewrite !K by lia.
    apply Z.mul_le_mono_nonneg_r; [|exact Hu]. apply Z.pow_nonneg. lia.
Qed.

(** *** Non-negative values: zeros, positive finite values, infinity *)

Lemma rounded_nonneg (M E : Z) : nonneg (rounded false M E).
Proof.
  unfold rounded.
  repeat match goal with
  | |- context [if ?b then _ else _] => destruct b
  end; exact I.
Qed.

Lemma SFleb_zero_l (s : bool) (f : spec_float) :
  nonneg f -> SFleb (S754_zero s) f = true.
Proof. destruct f as [?|[|]| |[|] ? ?]; intro H; try contradiction; reflexivity. Qed.

Lemma SFleb_infinity_r (f : spec_float) :
  nonneg f -> SFleb f (S754_infinity false) = true.
Proof. destruct f as [?|[|]| |[|] ? ?]; intro H; try contradiction; reflexivity. Qed.

Lemma SFleb_nonneg (f g : spec_float) :
  nonneg f -> SFleb f g = true -> nonneg g.
Proof.
  destruct f as [?|[|]| |[|] ? ?]; intro H; try contradiction;
    destruct g as [?|[|]| |[|] ? ?]; intro Hle; try exact I;
    try discriminate Hle.
Qed.


Lemma SFmul_mono (a1 a2 b1 b2 : spec_float) :
  valid_binary a1 = true -> valid_binary a2 = true ->
  valid_binary b1 = true -> valid_binary b2 = true ->
  nonneg a1 -> nonneg b1 ->
  SFleb a1 a2 = true -> SFleb b1 b2 = true ->
  SFmul prec emax a1 b1 <> S754_nan ->
  SFmul prec emax a2 b2 <> S754_nan ->
  SFleb (SFmul prec emax a1 b1) (SFmul prec emax a2 b2) = true.
Proof.
  intros Va1 Va2 Vb1 Vb2 Na1 Nb1 Ha Hb N1 N2.
  float_cases; try contradiction; try discriminate Ha; try discriminate Hb;
    try (exfalso; apply N1; reflexivity); try (exfalso; apply N2; reflexivity);
    rewrite ?SFmul_finite by assumption; cbn [SFmul xorb];
    try reflexivity;
    try (apply SFleb_zero_l; try exact I; apply rounded_nonneg);
    try (apply SFleb_infinity_r; try exact I; apply rounded_nonneg).
  apply SFmul_finite_mono; assumption.
Qed.

Lemma SFmul_nonneg (a b : spec_float) :
  valid_binary a = true -> valid_binary b = true ->
  nonneg a -> nonneg b ->
  SFmul prec emax a b <> S754_nan -> nonneg (SFmul prec emax a b).
Proof.
  intros Va Vb Na Nb N.
  float_cases; try contradiction; try exact I;
    try (exfalso; apply N; reflexivity).
  rewrite SFmul_finite by assumption. apply rounded_nonneg.
Qed.

(** A product is NaN only when one factor is zero and the other infinite. *)
Lemma SFmul_finite_l (m : positive) (e : Z) (b : spec_float) :
  valid_binary (S754_finite false m e) = true -> valid_binary b = true ->
  nonneg b -> SFmul prec emax (S754_finite false m e) b <> S754_nan.
Proof.
  intros Va Vb Nb.
  float_cases; try contradiction; try discriminate.
  rewrite SFmul_finite by assumption. unfold rounded.
  repeat match goal with
  | |- context [if ?c then _ else _] => destruct c
  end; discriminate.
Qed.

Lemma SFmul_square_not_nan (m : positive) (e : Z) (r : spec_float) :
  valid_binary (S754_finite false m e) = true -> valid_binary r = true ->
  valid_binary (SFmul prec emax (S754_finite false m e) r) = true ->
  nonneg r ->
  SFmul prec emax (SFmul prec emax (S754_finite false m e) r) r <> S754_nan.
Proof.
  intros Vc Vr Vu Nr.
  destruct r as [[|]|[|]| |[|] mr er]; try contradiction; try discriminate.
  pose proof (SFmul_nonneg _ _ Vc Vr I I (SFmul_finite_l m e _ Vc Vr I)) as Nu.
  destruct (SFmul prec emax (S754_finite false m e) (S754_finite false mr er))
    as [[|]|[|]| |[|] mu eu]; try contradiction; try discriminate.
  apply SFmul_finite_l; [exact Vu | exact Vr | exact I].
Qed.

Lemma SFdiv_million_nonneg_mono (w1 w2 : spec_float) :
  valid_binary w1 = true -> valid_binary w2 = true ->
  nonneg w1 -> SFleb w1 w2 = true ->
  SFleb (SFdiv prec emax w1 (S754_finite false million_m million_e))
        (SFdiv prec emax w2 (S754_finite false million_m million_e)) = true
  /\ nonneg (SFdiv prec emax w1 (S754_finite false million_m million_e)).
Proof.
  intros V1 V2 N1 Hle.
  destruct w1 as [[|]|[|]| |[|] m1 e1]; try contradiction;
    destruct w2 as [[|]|[|]| |[|] m2 e2]; try discriminate Hle;
    rewrite ?SFdiv_million by assumption; cbn [SFdiv xorb];
    (split; [|try exact I; try apply rounded_nonneg]);
    try reflexivity;
    try (apply SFleb_zero_l; try exact I; apply rounded_nonneg);
    try (apply SFleb_infinity_r; try exact I; apply rounded_nonneg).
  apply SFdiv_million_mono; assumption.
Qed.

(** *** The hundredths that [toFixed(2)] prints *)

Lemma pow2_1075 : 2 ^ 1075 = 2 * 2 ^ 1074.
Proof. reflexivity. Qed.

Lemma nearest_scaled_units (m : positive) (e : Z) :
  -1074 <= e ->
  nearest_scaled m e 2 = (200 * units m e + 2 ^ 1074) / 2 ^ 1075.
Proof.
  intro He. unfold nearest_scaled, units. change (10 ^ 2) with 100.
  assert (P : 0 < 2 ^ 1074) by reflexivity.
  destruct (Z.leb_spec 0 e) as [H | H].
  - apply (Z.div_unique_pos _ _ _ (2 ^ 1074)); [rewrite pow2_1075; lia|].
    rewrite Z.pow_add_r, pow2_1075 by lia. ring.
  - assert (Q : 0 < 2 ^ (e + 1074)) by (apply Z.pow_pos_nonneg; lia).
    rewrite <- (Z.div_mul_cancel_r _ _ (2 ^ (e + 1074))) by lia.
    f_equal.
    + rewrite Z.mul_add_distr_r, <- Z.pow_add_r by lia.
      replace (- e + (e + 1074)) with 1074 by lia. ring.
    + rewrite <- Z.pow_add_r by lia. f_equal. lia.
Qed.

(** The integer printed is the nearest to a hundred times the value, the
    larger one when two are as near: in units of [2^-1074],
    [n - 1/2 <= 100 * value < n + 1/2]. *)
Lemma nearest_scaled_is_nearest (m : positive) (e : Z) :
  -1074 <= e ->
  - 2 ^ 1074
  <= 2 * (100 * units m e - nearest_scaled m e 2 * 2 ^ 1074)
  < 2 ^ 1074.
Proof.
  intro He. rewrite nearest_scaled_units by exact He.
  pose proof (Z.div_mod (200 * units m e + 2 ^ 1074) (2 ^ 1075) ltac:(discriminate)) as D.
  pose proof (Z.mod_pos_bound (200 * units m e + 2 ^ 1074) (2 ^ 1075) ltac:(reflexivity)) as B.
  rewrite pow2_1075 in *.
  set (n := (200 * units m e + 2 ^ 1074) / (2 * 2 ^ 1074)) in *.
  set (r := (200 * units m e + 2 ^ 1074) mod (2 * 2 ^ 1074)) in *.
  set (S := 2 ^ 1074) in *. clearbody S n r. lia.
Qed.

Lemma at_least_1e21_units (m : positive) (e : Z) :
  -1074 <= e ->
  at_least_1e21 m e = (10 ^ 21 * 2 ^ 1074 <=? units m e).
Proof.
  intro He. unfold at_least_1e21, units.
  assert (P : 0 < 2 ^ 1074) by reflexivity.
  destruct (Z.leb_spec 0 e) as [H | H].
  - rewrite Z.pow_add_r by lia.
    destruct (Z.leb_spec (10 ^ 21) (Z.pos m * 2 ^ e));
      symmetry; [apply Z.leb_le | apply Z.leb_gt]; nia.
  - assert (Q : 0 < 2 ^ (e + 1074)) by (apply Z.pow_pos_nonneg; lia).
    assert (E : 2 ^ 1074 = 2 ^ (- e) * 2 ^ (e + 1074)).
    { rewrite <- Z.pow_add_r by lia. f_equal. lia. }
    rewrite E.
    destruct (Z.leb_spec (10 ^ 21 * 2 ^ (- e)) (Z.pos m));
      symmetry; [apply Z.leb_le | apply Z.leb_gt]; nia.
Qed.

Lemma SFhundredths_mono (a1 a2 : spec_float) (n2 : Z) :
  valid_binary a1 = true -> valid_binary a2 = true ->
  nonneg a1 -> SFleb a1 a2 = true ->
  SFhundredths a2 = Some n2 ->
  exists n1, SFhundredths a1 = Some n1 /\ 0 <= n1 <= n2.
Proof.
  intros V1 V2 N1 Hle H2.
  destruct a1 as [[|]|[|]| |[|] m1 e1]; try contradiction;
    destruct a2 as [[|]|[|]| |[|] m2 e2];
    try discriminate Hle; try discriminate H2; cbn [SFhundredths] in *.
  1-2, 4-5: injection H2 as <-; exists 0; split; [reflexivity | lia].
  1-2: destruct (at_least_1e21 m2 e2); [discriminate|];
       injection H2 as <-; exists 0; split; [reflexivity|];
       rewrite nearest_scaled_units by (apply (valid_finite false m2 e2 V2));
       split; [lia|]; apply Z.div_pos; [unfold units; nia | reflexivity].
  pose proof (SFleb_units _ _ _ _ V1 V2 Hle) as Hu.
  pose proof (valid_finite _ _ _ V1) as (He1 & _).
  pose proof (valid_finite _ _ _ V2) as (He2 & _).
  rewrite at_least_1e21_units in * by lia.
  destruct (Z.leb_spec (10 ^ 21 * 2 ^ 1074) (units m2 e2)); [discriminate|].
  injection H2 as <-.
  replace (10 ^ 21 * 2 ^ 1074 <=? units m1 e1) with false
    by (symmetry; apply Z.leb_gt; lia).
  eexists. split; [reflexivity|].
  rewrite !nearest_scaled_units by lia. split.
  - apply Z.div_pos; [unfold units; nia | reflexivity].
  - apply Z.div_le_mono; [reflexivity | lia].
Qed.

(** *** The area grows with the altitude and with the tangent *)

(** The radius [h * t] and the area [PI * r * r / 1000000], on binary64
    values: for a positive finite altitude and a non-negative tangent they
    are non-negative and never NaN, and they grow with both. *)
Lemma SF_area_monotone (h1 h2 t1 t2 : number) :
  (0 <? h1)%float = true ->
  (h1 <=? h2)%float = true ->
  (h2 <? infinity)%float = true ->
  (0 <=? t1)%float = true ->
  (t1 <=? t2)%float = true ->
  SFleb (Prim2SF (Math_PI * (h1 * t1) * (h1 * t1) / num_1000000))
        (Prim2SF (Math_PI * (h2 * t2) * (h2 * t2) / num_1000000)) = true
  /\ nonneg (Prim2SF (Math_PI * (h1 * t1) * (h1 * t1) / num_1000000)).
Proof.
  rewrite !ltb_spec, !leb_spec.
  change (Prim2SF 0) with (S754_zero false).
  change (Prim2SF infinity) with (S754_infinity false).
  intros Hpos Hh Hfin Ht0 Ht.
  pose proof (Prim2SF_valid h1) as Vh1. pose proof (Prim2SF_valid h2) as Vh2.
  pose proof (Prim2SF_valid t1) as Vt1. pose proof (Prim2SF_valid t2) as Vt2.
  pose proof (Prim2SF_valid (h1 * t1)) as Vr1.
  pose proof (Prim2SF_valid (h2 * t2)) as Vr2.
  pose proof (Prim2SF_valid (Math_PI * (h1 * t1))) as Vu1.
  pose proof (Prim2SF_valid (Math_PI * (h2 * t2))) as Vu2.
  pose proof (Prim2SF_valid (Math_PI * (h1 * t1) * (h1 * t1))) as Vw1.
  pose proof (Prim2SF_valid (Math_PI * (h2 * t2) * (h2 * t2))) as Vw2.
  rewrite !div_spec. unfold num_1000000. rewrite Prim2SF_million. unfold SF64div.
  rewrite !mul_spec in *. unfold SF64mul in *.
  change (Prim2SF Math_PI) with (S754_finite false 7074237752028440 (-51)) in *.
  assert (Vpi : valid_binary (S754_finite false 7074237752028440 (-51)) = true)
    by reflexivity.
  set (H1 := Prim2SF h1) in *. set (H2 := Prim2SF h2) in *.
  set (T1 := Prim2SF t1) in *. set (T2 := Prim2SF t2) in *.
  clearbody H1 H2 T1 T2.
  (* the altitudes are positive and finite, the tangents are not negative *)
  assert (Nt1 : nonneg T1) by (apply (SFleb_nonneg (S754_zero false)); [exact I | exact Ht0]).
  assert (Nt2 : nonneg T2) by (apply (SFleb_nonneg T1); assumption).
  assert (Fh : exists m1 e1 m2 e2,
             H1 = S754_finite false m1 e1 /\ H2 = S754_finite false m2 e2).
  { destruct H1 as [[|]|[|]| |[|] m1 e1]; try discriminate Hpos;
      destruct H2 as [[|]|[|]| |[|] m2 e2];
      try discriminate Hh; try discriminate Hfin;
      do 4 eexists; split; reflexivity. }
  destruct Fh as (m1 & e1 & m2 & e2 & -> & ->).
  (* the radii *)
  pose proof (SFmul_finite_l m1 e1 T1 Vh1 Vt1 Nt1) as Nr1.
  pose proof (SFmul_finite_l m2 e2 T2 Vh2 Vt2 Nt2) as Nr2.
  pose proof (SFmul_mono _ _ _ _ Vh1 Vh2 Vt1 Vt2 I Nt1 Hh Ht Nr1 Nr2) as Hr.
  pose proof (SFmul_nonneg _ _ Vh1 Vt1 I Nt1 Nr1) as Pr1.
  pose proof (SFmul_nonneg _ _ Vh2 Vt2 I Nt2 Nr2) as Pr2.
  set (R1 := SFmul prec emax (S754_finite false m1 e1) T1) in *.
  set (R2 := SFmul prec emax (S754_finite false m2 e2) T2) in *.
  clearbody R1 R2.
  (* PI * r *)
  pose proof (SFmul_finite_l _ _ R1 Vpi Vr1 Pr1) as Nu1.
  pose proof (SFmul_finite_l _ _ R2 Vpi Vr2 Pr2) as Nu2.
  assert (Hpi : SFleb (S754_finite false 7074237752028440 (-51))
                      (S754_finite false 7074237752028440 (-51)) = true)
    by reflexivity.
  pose proof (SFmul_mono _ _ _ _ Vpi Vpi Vr1 Vr2 I Pr1 Hpi Hr Nu1 Nu2) as Hu.
  pose proof (SFmul_nonneg _ _ Vpi Vr1 I Pr1 Nu1) as Pu1.
  (* PI * r * r *)
  pose proof (SFmul_square_not_nan _ _ R1 Vpi Vr1 Vu1 Pr1) as Nw1.
  pose proof (SFmul_square_not_nan _ _ R2 Vpi Vr2 Vu2 Pr2) as Nw2.
  pose proof (SFmul_mono _ _ _ _ Vu1 Vu2 Vr1 Vr2 Pu1 Pr1 Hu Hr Nw1 Nw2) as Hw.
  pose proof (SFmul_nonneg _ _ Vu1 Vr1 Pu1 Pr1 Nw1) as Pw1.
  (* ... / 1000000 *)
  exact (SFdiv_million_nonneg_mono _ _ Vw1 Vw2 Pw1 Hw).
Qed.

(** *** Signs of products and quotients *)

Lemma binary_round_aux_opp (s : bool) (m e : Z) (l : location) :
  SFopp (binary_round_aux prec emax s m e l)
  = binary_round_aux prec emax (negb s) m e l.
Proof.
  unfold binary_round_aux.
  destruct (shr_fexp prec emax m e l) as [r1 e1].
  destruct (shr_fexp prec emax _ e1 loc_Exact) as [r2 e2].
  destruct (shr_m r2); [reflexivity| |reflexivity].
  destruct (e2 <=? emax - prec); reflexivity.
Qed.

Lemma binary_round_aux_signed (s : bool) (m e : Z) (l : location) :
  signed s (binary_round_aux prec emax s m e l).
Proof.
  unfold binary_round_aux.
  destruct (shr_fexp prec emax m e l) as [r1 e1].
  destruct (shr_fexp prec emax _ e1 loc_Exact) as [r2 e2].
  destruct (shr_m r2); [reflexivity| |exact I].
  destruct (e2 <=? emax - prec); reflexivity.
Qed.

Lemma SFmul_opp_l (a b : spec_float) :
  SFmul prec emax (SFopp a) b = SFopp (SFmul prec emax a b).
Proof.
  destruct a as [sa|sa| |sa ma ea], b as [sb|sb| |sb mb eb];
    cbn [SFmul SFopp]; try reflexivity;
    try (destruct sa, sb; reflexivity).
  rewrite binary_round_aux_opp. destruct sa, sb; reflexivity.
Qed.

Lemma SFmul_opp_r (a b : spec_float) :
  SFmul prec emax a (SFopp b) = SFopp (SFmul prec emax a b).
Proof.
  destruct a as [sa|sa| |sa ma ea], b as [sb|sb| |sb mb eb];
    cbn [SFmul SFopp]; try reflexivity;
    try (destruct sa, sb; reflexivity).
  rewrite binary_round_aux_opp. destruct sa, sb; reflexivity.
Qed.

Lemma SFopp_involutive (a : spec_float) : SFopp (SFopp a) = a.
Proof. destruct a as [[|]|[|]| |[|] m e]; reflexivity. Qed.

Lemma mul_opp_opp (a b : number) : (- a * - b)%float = (a * b)%float.
Proof.
  apply Prim2SF_inj.
  rewrite !mul_spec, !opp_spec, SFmul_opp_l, SFmul_opp_r.
  apply SFopp_involutive.
Qed.

Lemma mul_opp_l (a b : number) : (- a * b)%float = (- (a * b))%float.
Proof.
  apply Prim2SF_inj. rewrite opp_spec, !mul_spec, opp_spec. apply SFmul_opp_l.
Qed.

Lemma mul_opp_r (a b : number) : (a * - b)%float = (- (a * b))%float.
Proof.
  apply Prim2SF_inj. rewrite opp_spec, !mul_spec, opp_spec. apply SFmul_opp_r.
Qed.

Lemma SFmul_signed (sa sb : bool) (a b : spec_float) :
  signed sa a -> signed sb b -> signed (xorb sa sb) (SFmul prec emax a b).
Proof.
  destruct a as [s|s| |s ma ea], b as [s'|s'| |s' mb eb];
    cbn [signed SFmul]; intros Ha Hb; subst; try reflexivity; try exact I.
  apply binary_round_aux_signed.
Qed.

Lemma SFdiv_signed (sa sb : bool) (a b : spec_float) :
  signed sa a -> signed sb b -> signed (xorb sa sb) (SFdiv prec emax a b).
Proof.
  destruct a as [s|s| |s ma ea], b as [s'|s'| |s' mb eb];
    cbn [signed SFdiv]; intros Ha Hb; subst; try reflexivity; try exact I.
  destruct (SFdiv_core_binary prec emax (Z.pos ma) ea (Z.pos mb) eb) as [[mz ez] lz].
  apply binary_round_aux_signed.
Qed.

Lemma signed_exists (f : spec_float) : exists s, signed s f.
Proof. destruct f as [s|s| |s m e]; cbn; eauto. exists false. exact I. Qed.

(** [PI * r * r / 1000000] is NaN or has a clear sign bit, whatever [r]. *)
Lemma SF_area_signed (r : number) :
  signed false (Prim2SF (Math_PI * r * r / num_1000000)%float).
Proof.
  rewrite div_spec, !mul_spec.
  destruct (signed_exists (Prim2SF r)) as [s Hs].
  assert (Hpi : signed false (Prim2SF Math_PI)) by reflexivity.
  assert (Hm : signed false (Prim2SF num_1000000)) by reflexivity.
  pose proof (SFmul_signed _ _ _ _ (SFmul_signed _ _ _ _ Hpi Hs) Hs) as H.
  replace (xorb (xorb false s) s) with false in H by (destruct s; reflexivity).
  exact (SFdiv_signed _ _ _ _ H Hm).
Qed.

Lemma signed_nonneg (f : spec_float) :
  signed false f -> f <> S754_nan -> nonneg f.
Proof.
  destruct f as [s|s| |s m e]; cbn; intros H N; subst; try exact I.
  now apply N.
Qed.

Lemma nearest_scaled_nonneg (m : positive) (e : Z) : 0 <= nearest_scaled m e 2.
Proof.
  unfold nearest_scaled. destruct (0 <=? e) eqn:He.
  - apply Z.leb_le in He.
    assert (0 < 2 ^ e) by (apply Z.pow_pos_nonneg; lia). nia.
  - apply Z.leb_gt in He.
    assert (0 < 2 ^ (- e)) by (apply Z.pow_pos_nonneg; lia).
    assert (0 < 2 ^ (1 - e)) by (apply Z.pow_pos_nonneg; lia).
    apply Z.div_pos; lia.
Qed.

Lemma SFhundredths_nonneg (f : spec_float) (n : Z) :
  SFhundredths f = Some n -> 0 <= n.
Proof.
  destruct f as [s|s| |[|] m e]; cbn [SFhundredths]; try discriminate.
  - intros [= <-]. lia.
  - destruct (at_least_1e21 m e); [discriminate|].
    intros [= <-]. apply nearest_scaled_nonneg.
Qed.

(** [isFinite] holds of the zeros and of the finite values only. *)
Lemma isFinite_cases (v : number) :
  isFinite v = true ->
  match Prim2SF v with
  | S754_zero _ | S754_finite _ _ _ => True
  | _ => False
  end.
Proof.
  unfold isFinite, is_finite, is_nan, is_infinity.
  rewrite !eqb_spec, abs_spec.
  destruct (Prim2SF v) as [s|[|]| |s m e]; intro H; try exact I;
    vm_compute in H; discriminate H.
Qed.

(** *** Comparisons with NaN, infinity and [10^21] *)

Lemma SFeqb_refl (f : spec_float) : f <> S754_nan -> SFeqb f f = true.
Proof.
  destruct f as [[|]|[|]| |[|] m e]; intro H; try reflexivity;
    try (exfalso; apply H; reflexivity);
    unfold SFeqb, SFcompare;
    rewrite Z.compare_refl, Pos.compare_cont_refl; reflexivity.
Qed.

Lemma is_nan_spec (a : number) :
  PrimFloat.is_nan a = true <-> Prim2SF a = S754_nan.
Proof.
  unfold is_nan. rewrite eqb_spec. split.
  - intro H. destruct (Prim2SF a) as [s|s| |s m e] eqn:E; try reflexivity;
      rewrite SFeqb_refl in H by discriminate; discriminate H.
  - intros ->. reflexivity.
Qed.

Lemma eqb_infinity_spec (a : number) :
  (a =? infinity)%float = true <-> Prim2SF a = S754_infinity false.
Proof.
  rewrite eqb_spec. change (Prim2SF infinity) with (S754_infinity false). split.
  - destruct (Prim2SF a) as [[|]|[|]| |[|] m e]; intro H;
      try discriminate H; reflexivity.
  - intros ->. reflexivity.
Qed.

Lemma Prim2SF_1e21 :
  Prim2SF num_1e21 = S754_finite false 7629394531250000 17.
Proof. reflexivity. Qed.

Lemma at_least_1e21_of_leb (m : positive) (e : Z) :
  valid_binary (S754_finite false m e) = true ->
  SFleb (Prim2SF num_1e21) (S754_finite false m e) = true ->
  at_least_1e21 m e = true.
Proof.
  intros V H. rewrite Prim2SF_1e21 in H.
  apply SFleb_units in H; [|reflexivity|exact V].
  apply valid_finite in V as (He & _).
  rewrite at_least_1e21_units by lia. apply Z.leb_le.
  replace (10 ^ 21 * 2 ^ 1074) with (units 7629394531250000 17); [exact H|].
  reflexivity.
Qed.

Lemma leb_1e21_of_not_below (m : positive) (e : Z) :
  SFltb (S754_finite false m e) (Prim2SF num_1e21) = false ->
  SFleb (Prim2SF num_1e21) (S754_finite false m e) = true.
Proof.
  rewrite Prim2SF_1e21. unfold SFltb, SFleb, SFcompare.
  rewrite (Z.compare_antisym e 17).
  destruct (e ?= 17); cbn [CompOpp]; try reflexivity; try discriminate.
  replace (Pos.compare_cont Eq 7629394531250000 m)
    with (CompOpp (Pos.compare_cont Eq m 7629394531250000))
    by apply (Pos.compare_cont_antisym m 7629394531250000 Eq).
  destruct (Pos.compare_cont Eq m 7629394531250000); cbn [CompOpp];
    try reflexivity; discriminate.
Qed.

(** A value that is NaN or has a clear sign bit is below [10^21], NaN,
    infinite, or finite and at least [10^21]. *)
Lemma signed_cases (a : number) :
  signed false (Prim2SF a) ->
  (abs a <? num_1e21)%float = true
  \/ PrimFloat.is_nan a = true
  \/ (a =? infinity)%float = true
  \/ ((num_1e21 <=? a)%float = true /\ (a <? infinity)%float = true).
Proof.
  intro Hs.
  destruct (abs a <? num_1e21)%float eqn:Hlt; [left; reflexivity | right].
  rewrite ltb_spec, abs_spec in Hlt.
  rewrite is_nan_spec, eqb_infinity_spec, leb_spec, ltb_spec.
  change (Prim2SF infinity) with (S754_infinity false).
  destruct (Prim2SF a) as [s|s| |s m e]; cbn [signed SFabs] in *; subst.
  - discriminate Hlt.
  - right. left. reflexivity.
  - left. reflexivity.
  - right. right. split; [|reflexivity].
    apply leb_1e21_of_not_below. exact Hlt.
Qed.

Section ViewerProperties.

Context {env : Imports}.

(** *** [calculatePositionAtTime] *)

(** The value returned is [position_at]; the console is the only part of
    the state the call touches. *)
Lemma calculatePositionAtTime_value (date : Date) (w : World) :
  fst (calculatePositionAtTime tleLine1 tleLine2 date w) = Normal (position_at date).
Proof.
  unfold calculatePositionAtTime, position_at, transformed, sentinel.
  destruct (position _) as [p|]; [destruct (velocity _) as [v|]|]; reflexivity.
Qed.

Lemma calculatePositionAtTime_frame (l1 l2 : string) (date : Date) (w : World) :
  let w' := snd (calculatePositionAtTime l1 l2 date w) in
  clock w' = clock w
  /\ positionProperty w' = positionProperty w
  /\ footprintArea w' = footprintArea w.
Proof.
  unfold calculatePositionAtTime.
  destruct (position _) as [p|]; [destruct (velocity _) as [v|]|];
    cbn; repeat split.
Qed.

(** C1, as the code has it: when the propagation fails (no position or no
    velocity), [calculatePositionAtTime] writes the failure to the console
    and returns the sentinel position whose x, y and z are NaN and which
    has no height; nothing is thrown and no failure value is returned. The
    sentinel is what the sampling loop's [isFinite] test rejects. *)
Theorem failed_propagation_returns_NaN_sentinel
  (l1 l2 : string) (date : Date) (w : World) :
  position (propagate (twoline2satrec l1 l2) date) = None
  \/ velocity (propagate (twoline2satrec l1 l2) date) = None ->
  calculatePositionAtTime l1 l2 date w =
    (Normal {| x := NaN; y := NaN; z := NaN; height := None |},
     {| console := console w ++
          [Invalid_position_and_velocity (propagate (twoline2satrec l1 l2) date)];
        clock := clock w;
        positionProperty := positionProperty w;
        footprintArea := footprintArea w |})
  /\ isFinite NaN = false.
Proof.
  intros Hfail. split; [|reflexivity].
  unfold calculatePositionAtTime.
  destruct Hfail as [Hp | Hv].
  - rewrite Hp. reflexivity.
  - rewrite Hv. destruct (position _); reflexivity.
Qed.


(** *** [calculateFovFootprint] never throws *)

Lemma toFixed_2_normal (a : number) :
  exists s, toFixed Number_toString a 2 = Normal s.
Proof.
  unfold toFixed. change ((2 <? 0) || (100 <? 2)) with false.
  lazy beta iota zeta.
  destruct (Prim2SF a) as [sg|sg| |sg m e]; try destruct sg; eauto.
  all: destruct (at_least_1e21 m e); eauto.
Qed.

(** *** The sampling loop *)

Lemma for_loop_step (i : Z) (w : World) :
  for_loop i w =
  if i <? 3600 then
    match loop_body i w with
    | (Normal _, w') => for_loop (i + 10) w'
    | (Throw e, w') => (Throw e, w')
    end
  else (Normal tt, w).
Proof.
  funelim (for_loop i w);
    match goal with E : (_ <? _) = _ |- _ => rewrite E end;
    try reflexivity;
    match goal with E : loop_body _ _ = _ |- _ => rewrite E end;
    reflexivity.
Qed.

(** One iteration: it reads the clock once, adds the sample of its instant
    when the position is finite and nothing otherwise, and does not throw. *)
Lemma loop_body_spec (i : Z) (w : World) :
  exists w',
    loop_body i w = (Normal tt, w')
    /\ clock w' = S (clock w)
    /\ positionProperty w' =
       positionProperty w ++
       (let t := JulianDate_addSeconds (JulianDate_now (clock w)) i in
        let p := position_at (JulianDate_toDate t) in
        if finite_position p then [(t, Cartesian3.mk (x p) (y p) (z p))] else []).
Proof.
  unfold loop_body, bind, now.
  match goal with
  | |- context [calculatePositionAtTime ?a ?b ?d ?w0] =>
      pose proof (calculatePositionAtTime_value d w0) as Hv;
      pose proof (calculatePositionAtTime_frame a b d w0) as (Hc & Hp & _);
      destruct (calculatePositionAtTime a b d w0) as [[p|err] w1]
  end; cbn in Hv, Hc, Hp; [|discriminate].
  injection Hv as ->. cbn [clock positionProperty] in Hc, Hp.
  fold (finite_position (position_at
          (JulianDate_toDate (JulianDate_addSeconds (JulianDate_now (clock w)) i)))).
  cbv zeta.
  destruct (finite_position _).
  - unfold addSample, lift, setFootprintArea, calculateFovFootprint.
    destruct (toFixed_2_normal
                (footprintArea_of (to_number (height (position_at
                   (JulianDate_toDate
                      (JulianDate_addSeconds (JulianDate_now (clock w)) i))))) num_45))
      as [s Hs].
    rewrite Hs. eexists. split; [reflexivity|]. cbn. rewrite Hc, Hp. auto.
  - unfold console_error. eexists. split; [reflexivity|]. cbn.
    rewrite Hc, Hp, app_nil_r. auto.
Qed.

(** The loop from iteration [k0] on: the remaining [n] iterations run, each
    adds what [sample_at] says. *)
Lemma for_loop_from (c0 n : nat) :
  forall (k0 : nat) (i : Z) (w : World),
    i = 10 * Z.of_nat k0 ->
    (k0 + n = 360)%nat ->
    clock w = (c0 + k0)%nat ->
    exists w',
      for_loop i w = (Normal tt, w')
      /\ clock w' = (c0 + 360)%nat
      /\ positionProperty w' = positionProperty w ++ sweep c0 (seq k0 n).
Proof.
  induction n as [|n IH]; intros k0 i w Hi Hk Hc.
  - rewrite for_loop_step.
    replace (i <? 3600) with false by (symmetry; apply Z.ltb_ge; lia).
    exists w. split; [reflexivity|]. split; [lia|].
    unfold sweep. cbn [seq flat_map]. now rewrite app_nil_r.
  - rewrite for_loop_step.
    replace (i <? 3600) with true by (symmetry; apply Z.ltb_lt; lia).
    destruct (loop_body_spec i w) as (w1 & Hb & Hc1 & Hp1).
    rewrite Hb.
    destruct (IH (S k0) (i + 10) w1) as (w' & Hl & Hc' & Hp'); [lia | lia | lia |].
    exists w'. split; [exact Hl|]. split; [exact Hc'|].
    rewrite Hp', Hp1, Hc, Hi. unfold sweep. cbn [seq flat_map].
    unfold sample_at at 2, instant. rewrite <- app_assoc. reflexivity.
Qed.

(** The whole sweep: it ends normally after 360 clock readings, and the
    property holds exactly the samples of the instants whose position is
    finite, in the order of the instants. *)
Lemma sampling_loop_spec (w : World) :
  exists w',
    sampling_loop w = (Normal tt, w')
    /\ clock w' = (clock w + 360)%nat
    /\ positionProperty w' = sweep (clock w) (seq 0 360).
Proof.
  unfold sampling_loop, bind, new_SampledPositionProperty.
  match goal with
  | |- context [for_loop 0 ?w0] =>
      destruct (for_loop_from (clock w) 360 0 0 w0 eq_refl eq_refl
                  (eq_sym (Nat.add_0_r _)))
        as (w' & Hl & Hc & Hp)
  end.
  exists w'. split; [exact Hl|]. split; [exact Hc|].
  rewrite Hp. apply app_nil_l.
Qed.

Lemma sample_at_finite (c0 k : nat) :
  Forall (fun s => finite_sample s = true) (sample_at c0 k).
Proof.
  unfold sample_at. cbv zeta.
  destruct (finite_position _) eqn:Hf; constructor; [|constructor].
  exact Hf.
Qed.

Lemma sweep_finite (c0 : nat) (ks : list nat) :
  Forall (fun s => finite_sample s = true) (sweep c0 ks).
Proof.
  unfold sweep. induction ks as [|k ks IH]; cbn [flat_map].
  - constructor.
  - apply Forall_app. split; [apply sample_at_finite | exact IH].
Qed.

Lemma position_at_failed (date : Date) :
  propagation_fails date -> position_at date = sentinel.
Proof.
  unfold propagation_fails, position_at. cbv zeta. intros [H | H]; rewrite H.
  - reflexivity.
  - destruct (position _); reflexivity.
Qed.

Lemma sample_at_failed (c0 k : nat) :
  propagation_fails (JulianDate_toDate (instant c0 k)) -> sample_at c0 k = [].
Proof.
  intro H. unfold sample_at. cbv zeta. rewrite (position_at_failed _ H).
  reflexivity.
Qed.

Lemma sweep_all_failed (c0 : nat) (ks : list nat) :
  (forall k, In k ks -> propagation_fails (JulianDate_toDate (instant c0 k))) ->
  sweep c0 ks = [].
Proof.
  unfold sweep. induction ks as [|k ks IH]; intro H; cbn [flat_map].
  - reflexivity.
  - rewrite sample_at_failed by (apply H; left; reflexivity).
    apply IH. intros j Hj. apply H. right. exact Hj.
Qed.

Lemma isFinite_not_NaN (v : number) : isFinite v = true -> v <> NaN.
Proof. intros H ->. discriminate H. Qed.

(** C10: every sample the sweep adds to the property has finite x, y and z
    (so none is NaN): a position with a non-finite component adds nothing. *)
Theorem samples_have_finite_coordinates (w : World) :
  exists w',
    sampling_loop w = (Normal tt, w')
    /\ Forall (fun s => (isFinite (Cartesian3.x (snd s)) = true
                         /\ isFinite (Cartesian3.y (snd s)) = true
                         /\ isFinite (Cartesian3.z (snd s)) = true)
                        /\ Cartesian3.x (snd s) <> NaN
                        /\ Cartesian3.y (snd s) <> NaN
                        /\ Cartesian3.z (snd s) <> NaN)
              (positionProperty w')
    /\ (forall k, finite_position
                    (position_at (JulianDate_toDate (instant (clock w) k))) = false ->
                  sample_at (clock w) k = []).
Proof.
  destruct (sampling_loop_spec w) as (w' & Hl & _ & Hp).
  exists w'. split; [exact Hl|]. split.
  - rewrite Hp. eapply Forall_impl; [|apply sweep_finite].
    intros s Hs. unfold finite_sample in Hs.
    apply andb_prop in Hs as [Hs Hz]. apply andb_prop in Hs as [Hx Hy].
    auto using isFinite_not_NaN.
  - intros k Hk. unfold sample_at. cbv zeta. rewrite Hk. reflexivity.
Qed.

(** C6: the sweep ends normally after visiting all 360 instants; what it
    leaves in the property is, instant by instant and in order, the sample
    of each instant whose position is finite. An instant at which the
    propagation fails, or whose transformed position is not finite, adds
    nothing, and the instants after it are still sampled; when the
    propagation fails at every instant the property is empty. *)
Theorem failed_instants_are_skipped (w : World) :
  exists w',
    sampling_loop w = (Normal tt, w')
    /\ clock w' = (clock w + 360)%nat
    /\ positionProperty w' = flat_map (sample_at (clock w)) (seq 0 360)
    /\ (forall k, propagation_fails (JulianDate_toDate (instant (clock w) k)) ->
                  sample_at (clock w) k = [])
    /\ (forall k, finite_position
                    (position_at (JulianDate_toDate (instant (clock w) k))) = false ->
                  sample_at (clock w) k = [])
    /\ ((forall k, (k < 360)%nat ->
                   propagation_fails (JulianDate_toDate (instant (clock w) k))) ->
        positionProperty w' = []).
Proof.
  destruct (sampling_loop_spec w) as (w' & Hl & Hc & Hp).
  exists w'. repeat split; try assumption.
  - apply sample_at_failed.
  - intros k Hk. unfold sample_at. cbv zeta. rewrite Hk. reflexivity.
  - intro Hall. rewrite Hp. apply sweep_all_failed.
    intros k Hk. apply in_seq in Hk. apply Hall. lia.
Qed.

Section TimeOrder.

(** Of Cesium's [JulianDate.lessThan]: no date is before itself; the clock
    does not run backwards, and adding more seconds to a date that is not
    earlier gives a later date. *)
Hypothesis lessThan_irreflexive : forall t, ~ JulianDate_lessThan t t.

Hypothesis addSeconds_increasing :
  forall (j k : nat) (s s' : Z),
    (j <= k)%nat -> s < s' ->
    JulianDate_lessThan (JulianDate_addSeconds (JulianDate_now j) s)
                        (JulianDate_addSeconds (JulianDate_now k) s').

Lemma sample_at_valid (c0 k : nat) :
  propagates_validly (JulianDate_toDate (instant c0 k)) ->
  exists p, sample_at c0 k = [(instant c0 k, p)].
Proof.
  intros (p & v & Hpv & Hf). unfold sample_at, position_at. cbv zeta.
  rewrite Hpv. cbn [position velocity]. rewrite Hf. eauto.
Qed.

Lemma sweep_all_valid (c0 : nat) (ks : list nat) :
  (forall k, In k ks -> propagates_validly (JulianDate_toDate (instant c0 k))) ->
  map fst (sweep c0 ks) = map (instant c0) ks.
Proof.
  unfold sweep. induction ks as [|k ks IH]; intro H; cbn [flat_map map].
  - reflexivity.
  - destruct (sample_at_valid c0 k) as [p Hp]; [apply H; left; reflexivity|].
    rewrite Hp. cbn [app map fst]. f_equal.
    apply IH. intros j Hj. apply H. right. exact Hj.
Qed.

Lemma instants_sorted (c0 n k0 : nat) :
  StronglySorted JulianDate_lessThan (map (instant c0) (seq k0 n)).
Proof.
  revert k0. induction n as [|n IH]; intro k0; cbn [seq map].
  - constructor.
  - constructor; [apply IH|].
    apply Forall_forall. intros t Ht.
    apply in_map_iff in Ht as (j & <- & Hj). apply in_seq in Hj.
    unfold instant. apply addSeconds_increasing; lia.
Qed.

Lemma sorted_NoDup (l : list JulianDate) :
  StronglySorted JulianDate_lessThan l -> NoDup l.
Proof.
  induction 1 as [|t l Hs IH Hall]; constructor; [|exact IH].
  intro Hin. rewrite Forall_forall in Hall.
  exact (lessThan_irreflexive t (Hall t Hin)).
Qed.

(** C5: when the orbit propagates validly at each of the instants of the
    sweep (3600 seconds from the start instant, every 10 seconds, the start
    included), the sweep yields exactly 360 samples, the first at the start
    instant, whose instants are strictly increasing and pairwise distinct. *)
Theorem valid_orbit_yields_360_increasing_samples (w : World) :
  (forall k, (k < 360)%nat ->
             propagates_validly (JulianDate_toDate (instant (clock w) k))) ->
  exists w',
    sampling_loop w = (Normal tt, w')
    /\ List.length (positionProperty w') = 360%nat
    /\ hd_error (map fst (positionProperty w'))
       = Some (JulianDate_addSeconds (JulianDate_now (clock w)) 0)
    /\ StronglySorted JulianDate_lessThan (map fst (positionProperty w'))
    /\ NoDup (map fst (positionProperty w')).
Proof.
  intro Hvalid.
  destruct (sampling_loop_spec w) as (w' & Hl & _ & Hp).
  assert (Hm : map fst (positionProperty w') = map (instant (clock w)) (seq 0 360)).
  { rewrite Hp. apply sweep_all_valid.
    intros k Hk. apply in_seq in Hk. apply Hvalid. lia. }
  exists w'. split; [exact Hl|]. split; [|split; [|split]].
  - rewrite <- (length_map fst), Hm, length_map, length_seq. reflexivity.
  - rewrite Hm. change (seq 0 360) with (0%nat :: seq 1 359).
    cbn [map hd_error]. unfold instant. rewrite Nat.add_0_r. reflexivity.
  - rewrite Hm. apply instants_sorted.
  - rewrite Hm. apply sorted_NoDup, instants_sorted.
Qed.

End TimeOrder.

(** *** The format of [toFixed] *)

Lemma Normal_inj (A : Type) (a b : A) : Normal a = Normal b -> a = b.
Proof. intros [= ->]. reflexivity. Qed.

Lemma string_of_uint_digits (u : Decimal.uint) :
  forallb is_digit (list_ascii_of_string (NilEmpty.string_of_uint u)) = true.
Proof. induction u; cbn; auto. Qed.

Lemma decimal_digits_all (n : Z) : forallb is_digit (decimal_digits n) = true.
Proof.
  unfold decimal_digits, NilZero.string_of_uint.
  destruct (N.to_uint (Z.to_N n)) eqn:E; try reflexivity;
    rewrite <- E; apply string_of_uint_digits || (cbn; apply string_of_uint_digits).
Qed.

Lemma decimal_digits_nonempty (n : Z) : (1 <= List.length (decimal_digits n))%nat.
Proof.
  unfold decimal_digits, NilZero.string_of_uint.
  destruct (N.to_uint (Z.to_N n)); cbn; lia.
Qed.

Lemma forallb_repeat_zero (k : nat) : forallb is_digit (repeat "0"%char k) = true.
Proof. induction k; cbn; auto. Qed.

(** The shape of [fixed_point n 2]: digits, a point, two digits. *)
Lemma fixed_point_2_shape (n : Z) :
  exists a d1 d2,
    fixed_point n 2 = a ++ ["."%char; d1; d2]
    /\ (1 <= List.length a)%nat
    /\ forallb is_digit a = true
    /\ is_digit d1 = true /\ is_digit d2 = true.
Proof.
  unfold fixed_point.
  set (m0 := decimal_digits n).
  set (m := if (List.length m0 <=? 2)%nat
            then repeat "0"%char (2 + 1 - List.length m0) ++ m0 else m0).
  cbv zeta.
  assert (Hm : forallb is_digit m = true /\ (3 <= List.length m)%nat).
  { subst m. pose proof (decimal_digits_all n) as Hd.
    pose proof (decimal_digits_nonempty n) as Hl. fold m0 in Hd, Hl.
    destruct (Nat.leb_spec (List.length m0) 2).
    - split.
      + rewrite forallb_app, forallb_repeat_zero. exact Hd.
      + rewrite length_app, repeat_length. lia.
    - split; [exact Hd | lia]. }
  destruct Hm as [Hd Hl].
  set (k := List.length m) in *.
  pose proof (firstn_skipn (k - 2) m) as Hsplit.
  rewrite <- Hsplit in Hd. rewrite forallb_app in Hd.
  apply andb_prop in Hd as [Ha Hb].
  assert (Hlb : List.length (skipn (k - 2) m) = 2%nat)
    by (rewrite length_skipn; fold k; lia).
  destruct (skipn (k - 2) m) as [|d1 [|d2 [|d3 t]]]; try discriminate.
  cbn in Hb. apply andb_prop in Hb as [Hd1 Hd2].
  apply andb_prop in Hd2 as [Hd2 _].
  exists (firstn (k - 2) m), d1, d2. repeat split; auto.
  rewrite length_firstn. fold k. lia.
Qed.

Lemma two_fraction_digits_intro (sg : bool) (a : list ascii) (d1 d2 : ascii) :
  (1 <= List.length a)%nat ->
  forallb is_digit a = true ->
  is_digit d1 = true -> is_digit d2 = true ->
  two_fraction_digits
    (string_of_list_ascii
       (if sg then "-"%char :: a ++ ["."%char; d1; d2] else a ++ ["."%char; d1; d2]))
  = true.
Proof.
  intros Hl Ha Hd1 Hd2. unfold two_fraction_digits.
  rewrite list_ascii_of_string_of_list_ascii.
  assert (Hbody : strip_sign (if sg then "-"%char :: a ++ ["."%char; d1; d2]
                               else a ++ ["."%char; d1; d2])
                  = a ++ ["."%char; d1; d2]).
  { destruct sg; [reflexivity|].
    destruct a as [|c a']; [cbn in Hl; lia|].
    cbn in Ha. apply andb_prop in Ha as [Hc _].
    destruct c as [[|] [|] [|] [|] [|] [|] [|] [|]]; try discriminate Hc; reflexivity. }
  cbv zeta. rewrite Hbody.
  rewrite length_app. cbn [List.length].
  replace (List.length a + 3 - 3)%nat with (List.length a + 0)%nat by lia.
  rewrite firstn_app_2, skipn_app.
  cbn [firstn]. rewrite app_nil_r, Ha.
  replace (List.length a + 0)%nat with (List.length a) by lia.
  rewrite skipn_all, Nat.sub_diag. cbn [skipn app].
  rewrite Hd1, Hd2.
  replace (4 <=? List.length a + 3)%nat with true
    by (symmetry; apply Nat.leb_le; lia).
  reflexivity.
Qed.

Lemma toFixed_2_finite_format (a : number) (s : string) :
  toFixed Number_toString a 2 = Normal s ->
  match Prim2SF a with
  | S754_zero _ => True
  | S754_finite _ m e => at_least_1e21 m e = false
  | _ => False
  end ->
  two_fraction_digits s = true.
Proof.
  unfold toFixed. change ((2 <? 0) || (100 <? 2)) with false.
  change (Z.to_nat 2) with 2%nat. lazy beta iota zeta.
  destruct (Prim2SF a) as [sg|sg| |sg m e]; try contradiction.
  - intros [= <-] _. reflexivity.
  - intros Hs Hlt. rewrite Hlt in Hs. apply Normal_inj in Hs. subst s.
    destruct (fixed_point_2_shape (nearest_scaled m e 2))
      as (b & d1 & d2 & -> & Hl & Hb & Hd1 & Hd2).
    apply two_fraction_digits_intro; assumption.
Qed.

(** *** Magnitudes below [10^21] *)

Lemma valid_mantissa_bound (m : positive) (e : Z) :
  valid_binary (S754_finite false m e) = true -> Z.pos m < 2 ^ 53.
Proof.
  cbn [SpecFloat.valid_binary]. unfold bounded, canonical_mantissa, fexp.
  intro H. apply andb_prop in H as [H _]. apply Z.eqb_eq in H.
  pose proof (digits2_pos_upper m) as Hb.
  assert (Hd : Z.pos (digits2_pos m) <= 53) by (unfold FloatOps.prec in H; lia).
  pose proof (Z.pow_le_mono_r 2 _ 53 ltac:(lia) Hd) as Hp.
  exact (Z.lt_le_trans _ _ _ Hb Hp).
Qed.

Lemma SF_below_1e21 (f : spec_float) :
  valid_binary f = true ->
  SFltb (SFabs f) (Prim2SF num_1e21) = true ->
  match f with
  | S754_zero _ => True
  | S754_finite _ m e => at_least_1e21 m e = false
  | _ => False
  end.
Proof.
  intro Hv.
  destruct f as [sg|sg| |sg m e]; cbn [SFabs].
  - exact (fun _ => I).
  - intro H. vm_compute in H. discriminate H.
  - intro H. vm_compute in H. discriminate H.
  - change (Prim2SF num_1e21) with (S754_finite false 7629394531250000 17).
    unfold SFltb, SFcompare.
    assert (Hm : Z.pos m < 2 ^ 53)
      by (apply (valid_mantissa_bound m e); destruct sg; exact Hv).
    unfold at_least_1e21.
    destruct (Z.compare_spec e 17) as [-> | Hlt | Hgt]; try discriminate.
    + rewrite Pos.compare_cont_spec. cbn [Pos.switch_Eq].
      destruct (Pos.compare_spec m 7629394531250000) as [? | Hlt | ?];
        try discriminate.
      intros _. cbn [Z.leb]. apply Z.leb_gt.
      apply Pos2Z.pos_lt_pos in Hlt. lia.
    + intros _. destruct (Z.leb_spec 0 e) as [He | He]; apply Z.leb_gt.
      * assert (2 ^ e <= 2 ^ 16) by (apply Z.pow_le_mono_r; lia).
        assert (Z.pos m * 2 ^ e <= 2 ^ 53 * 2 ^ 16) by (apply Z.mul_le_mono_nonneg; lia).
        lia.
      * assert (1 <= 2 ^ (- e)) by (apply (Z.pow_le_mono_r 2 0); lia).
        lia.
Qed.

Lemma below_1e21 (a : number) :
  (abs a <? num_1e21)%float = true ->
  match Prim2SF a with
  | S754_zero _ => True
  | S754_finite _ m e => at_least_1e21 m e = false
  | _ => False
  end.
Proof.
  rewrite ltb_spec, abs_spec. apply SF_below_1e21, Prim2SF_valid.
Qed.

Lemma nonneg_below_1e21 (a : number) :
  nonneg (Prim2SF a) -> (a <? num_1e21)%float = true ->
  exists n, hundredths a = Some n.
Proof.
  rewrite ltb_spec. intros Hn Hlt. unfold hundredths.
  pose proof (SF_below_1e21 (Prim2SF a) (Prim2SF_valid a)) as H.
  destruct (Prim2SF a) as [[|]|[|]| |[|] m e]; try contradiction;
    cbn [SFabs SFhundredths] in *; try (eexists; reflexivity).
  rewrite (H Hlt). eexists; reflexivity.
Qed.

Lemma toFixed_hundredths (a : number) (n : Z) :
  hundredths a = Some n -> toFixed Number_toString a 2 = Normal (fixed_2 n).
Proof.
  unfold hundredths, toFixed, fixed_2.
  change ((2 <? 0) || (100 <? 2)) with false. change (Z.to_nat 2) with 2%nat.
  lazy beta iota zeta.
  destruct (Prim2SF a) as [[|]|[|]| |[|] m e]; cbn [SFhundredths];
    try discriminate; try (intros [= <-]; reflexivity).
  destruct (at_least_1e21 m e); [discriminate|]. intros [= <-]. reflexivity.
Qed.

(** C7: over altitudes that are positive and finite, and fields of view at
    whose half-angles [Math.tan] is non-negative and ordered (as the
    tangent is for full angles between 0 and 180 degrees), the area grows
    with the altitude and with the field of view: with the same field of
    view twice it does not decrease when the altitude is raised, with the
    same altitude twice it does not decrease when the field of view is
    widened. This holds of the area computed and, below 10^21, of the
    hundredths that the returned strings print. *)
Theorem footprint_area_is_monotone (h1 h2 fov1 fov2 : number) :
  (0 <? h1)%float = true ->
  (h1 <=? h2)%float = true ->
  (h2 <? infinity)%float = true ->
  (0 <=? Math_tan (degreesToRadians (fov1 / num_2)))%float = true ->
  (Math_tan (degreesToRadians (fov1 / num_2))
   <=? Math_tan (degreesToRadians (fov2 / num_2)))%float = true ->
  (footprintArea_of h1 fov1 <=? footprintArea_of h2 fov2)%float = true
  /\ ((footprintArea_of h2 fov2 <? num_1e21)%float = true ->
      exists n1 n2,
        calculateFovFootprint h1 fov1 = Normal (fixed_2 n1)
        /\ calculateFovFootprint h2 fov2 = Normal (fixed_2 n2)
        /\ 0 <= n1 <= n2).
Proof.
  intros Hpos Hh Hfin Ht0 Ht.
  destruct (SF_area_monotone h1 h2 _ _ Hpos Hh Hfin Ht0 Ht) as [Hle Hn1].
  unfold calculateFovFootprint, footprintArea_of, fovRadius_of. cbv zeta.
  split; [rewrite leb_spec; exact Hle|].
  intro Hlt.
  pose proof (SFleb_nonneg _ _ Hn1 Hle) as Hn2.
  destruct (nonneg_below_1e21 _ Hn2 Hlt) as [n2 H2].
  destruct (SFhundredths_mono _ _ n2 (Prim2SF_valid _) (Prim2SF_valid _)
              Hn1 Hle H2) as (n1 & H1 & Hn).
  exists n1, n2. repeat split; try lia; apply toFixed_hundredths; assumption.
Qed.

(** What [toFixed(2)] returns, by the class of the value. *)
Lemma toFixed_of_SF (a : number) :
  toFixed Number_toString a 2 =
  match Prim2SF a with
  | S754_nan => Normal "NaN"%string
  | S754_infinity false => Normal "Infinity"%string
  | S754_infinity true => Normal "-Infinity"%string
  | S754_zero _ => Normal "0.00"%string
  | S754_finite s m e =>
      if at_least_1e21 m e then Normal (Number_toString a)
      else Normal (string_of_list_ascii
                     (if s then "-"%char :: fixed_point (nearest_scaled m e 2) 2
                      else fixed_point (nearest_scaled m e 2) 2))
  end.
Proof. reflexivity. Qed.

(** C9, as the code has it: [calculateFovFootprint] never throws, whatever
    the altitude and the field of view, and returns a string, not a number.
    When the computed area is finite and below 10^21 in magnitude the string
    is in fixed-point notation with exactly two fraction digits; otherwise
    it is what [toString] gives: NaN for an area that is NaN, Infinity for
    an infinite one, and [Number::toString] of the area (exponential
    notation) for a finite one of at least 10^21. One of these four cases
    always holds, the area being never negative. *)
Theorem calculateFovFootprint_total (h fov : number) :
  exists s,
    calculateFovFootprint h fov = Normal s
    /\ ((abs (footprintArea_of h fov) <? num_1e21)%float = true ->
        two_fraction_digits s = true)
    /\ (PrimFloat.is_nan (footprintArea_of h fov) = true -> s = "NaN"%string)
    /\ ((footprintArea_of h fov =? infinity)%float = true ->
        s = "Infinity"%string)
    /\ ((num_1e21 <=? footprintArea_of h fov)%float = true ->
        (footprintArea_of h fov <? infinity)%float = true ->
        s = Number_toString (footprintArea_of h fov))
    /\ ((abs (footprintArea_of h fov) <? num_1e21)%float = true
        \/ PrimFloat.is_nan (footprintArea_of h fov) = true
        \/ (footprintArea_of h fov =? infinity)%float = true
        \/ ((num_1e21 <=? footprintArea_of h fov)%float = true
            /\ (footprintArea_of h fov <? infinity)%float = true)).
Proof.
  unfold calculateFovFootprint.
  destruct (toFixed_2_normal (footprintArea_of h fov)) as [s Hs].
  exists s. split; [exact Hs|]. split; [|split; [|split; [|split]]].
  - intro Hlt. eapply toFixed_2_finite_format; [exact Hs|].
    apply below_1e21. exact Hlt.
  - intro Hn. apply is_nan_spec in Hn.
    rewrite toFixed_of_SF, Hn in Hs. apply Normal_inj in Hs. congruence.
  - intro Hi. apply eqb_infinity_spec in Hi.
    rewrite toFixed_of_SF, Hi in Hs. apply Normal_inj in Hs. congruence.
  - intros Hge Hfin. rewrite leb_spec in Hge. rewrite ltb_spec in Hfin.
    pose proof (Prim2SF_valid (footprintArea_of h fov)) as V.
    rewrite toFixed_of_SF in Hs.
    destruct (Prim2SF (footprintArea_of h fov)) as [[|]|[|]| |[|] m e];
      try discriminate Hge; try discriminate Hfin.
    rewrite (at_least_1e21_of_leb m e V Hge) in Hs.
    apply Normal_inj in Hs. congruence.
  - apply signed_cases.
    exact (SF_area_signed (fovRadius_of h fov)).
Qed.

(** C4, as the code has it: [calculateFovFootprint] validates neither
    input. A field of view of 180 degrees or more, or an altitude of zero
    or less, is not rejected: the call returns the formatted value of the
    formula like any other and fails with no error. *)
Theorem out_of_domain_inputs_are_accepted (h fov : number) :
  (180 <=? fov)%float = true \/ (h <=? 0)%float = true ->
  exists s,
    calculateFovFootprint h fov = Normal s
    /\ toFixed Number_toString
         (Math_PI * fovRadius_of h fov * fovRadius_of h fov / num_1000000)%float 2
       = Normal s.
Proof.
  intros _. unfold calculateFovFootprint.
  destruct (toFixed_2_normal (footprintArea_of h fov)) as [s Hs].
  exists s. split; exact Hs.
Qed.

(** The string printed for an altitude and a tangent between two bounds
    that print the same hundredths. *)
Lemma footprint_between (h t lo hi : number) (n : Z) :
  (0 <? h)%float = true -> (h <? infinity)%float = true ->
  (0 <=? lo)%float = true -> (lo <=? t)%float = true -> (t <=? hi)%float = true ->
  hundredths (Math_PI * (h * lo) * (h * lo) / num_1000000)%float = Some n ->
  hundredths (Math_PI * (h * hi) * (h * hi) / num_1000000)%float = Some n ->
  toFixed Number_toString (Math_PI * (h * t) * (h * t) / num_1000000)%float 2
  = Normal (fixed_2 n).
Proof.
  intros Hpos Hfin Hlo0 Hlo Hhi Nlo Nhi.
  assert (Hh : (h <=? h)%float = true).
  { rewrite leb_spec. rewrite ltb_spec in Hpos.
    destruct (Prim2SF h) as [[|]|[|]| |[|] m e]; try discriminate Hpos;
      try reflexivity.
    unfold SFleb, SFcompare. rewrite Z.compare_refl, Pos.compare_cont_refl.
    reflexivity. }
  assert (Ht0 : (0 <=? t)%float = true).
  { rewrite leb_spec in *.
    apply SFleb_zero_l, (SFleb_nonneg (Prim2SF lo)); [|exact Hlo].
    apply (SFleb_nonneg (Prim2SF 0)); [exact I | exact Hlo0]. }
  destruct (SF_area_monotone h h lo t Hpos Hh Hfin Hlo0 Hlo) as [L1 P1].
  destruct (SF_area_monotone h h t hi Hpos Hh Hfin Ht0 Hhi) as [L2 P2].
  destruct (SFhundredths_mono _ _ n (Prim2SF_valid _) (Prim2SF_valid _) P2 L2 Nhi)
    as (k & Hk & Hkn).
  destruct (SFhundredths_mono _ _ k (Prim2SF_valid _) (Prim2SF_valid _) P1 L1 Hk)
    as (k' & Hk' & Hk'k).
  unfold hundredths in Nlo. rewrite Nlo in Hk'. injection Hk' as <-.
  apply toFixed_hundredths. unfold hundredths. rewrite Hk. f_equal. lia.
Qed.

(** C3, as the code has it: the altitude is taken in metres and the area
    of the formula is divided by 10^6 (square metres to square
    kilometres), rounded to two decimals and returned as a string. With
    the tangent of 22.5 degrees between 0.414213562373 and 0.414213562374,
    an altitude of 500 km passed as 500000 gives the string 134753.02, and
    the number 500 gives the string 0.13. *)
Theorem footprint_of_500_km_at_45_degrees :
  (0x1.a827999fce882p-2 <=? Math_tan (degreesToRadians (num_45 / num_2)))%float = true ->
  (Math_tan (degreesToRadians (num_45 / num_2)) <=? 0x1.a827999fd2ee0p-2)%float = true ->
  calculateFovFootprint 500000%float num_45 = Normal "134753.02"%string
  /\ calculateFovFootprint 500%float num_45 = Normal "0.13"%string.
Proof.
  intros Hlo Hhi.
  unfold calculateFovFootprint, footprintArea_of, fovRadius_of. cbv zeta.
  split.
  - change "134753.02"%string with (fixed_2 13475302).
    apply (footprint_between 500000%float _
             0x1.a827999fce882p-2%float 0x1.a827999fd2ee0p-2%float 13475302 eq_refl eq_refl eq_refl Hlo Hhi);
      vm_compute; reflexivity.
  - change "0.13"%string with (fixed_2 13).
    apply (footprint_between 500%float _
             0x1.a827999fce882p-2%float 0x1.a827999fd2ee0p-2%float 13 eq_refl eq_refl eq_refl Hlo Hhi);
      vm_compute; reflexivity.
Qed.

(** C2, at a satellite 400 km above latitude 0 and longitude 0, where the
    ellipsoid model gives the Earth-fixed position (6778.137, 0, 0) km: the
    angles go through [degreesToRadians] and the height is multiplied by
    1000 before [geodeticToEcf], so the position returned has
    x = 6378.137 + 400000 = 406378.137, which is neither the original
    position in kilometres nor that position in metres. *)
Theorem round_trip_is_not_reproduced
  (l1 l2 : string) (date : Date) (p v : Vec3.t) (w : World) :
  propagate (twoline2satrec l1 l2) date
  = {| position := Some p; velocity := Some v |} ->
  eciToGeodetic p (gstime date) = (Geodetic.mk 0 0 400)%float ->
  degreesToRadians 0%float = 0%float ->
  geodeticToEcf (Geodetic.mk 0 0 400)%float
  = (Vec3.mk 0x1.a7a23126e978dp+12 0 0)%float ->
  geodeticToEcf (Geodetic.mk 0 0 400000)%float
  = (Vec3.mk 0x1.8cda88c49ba5ep+18 0 0)%float ->
  exists pos,
    calculatePositionAtTime l1 l2 date w = (Normal pos, w)
    /\ x pos = 0x1.8cda88c49ba5ep+18%float
    /\ (0x1.0624dd2f1a9fcp-10 <? abs (x pos - 0x1.a7a23126e978dp+12))%float = true
    /\ (1 <? abs (x pos - 0x1.a7a23126e978dp+12 * 1000))%float = true.
Proof.
  intros Hpv Hgd Hrad Hecf Hecf'.
  unfold calculatePositionAtTime. rewrite Hpv. cbn [position velocity].
  rewrite Hgd. cbn [Geodetic.longitude Geodetic.latitude Geodetic.height].
  rewrite Hrad.
  change (400 * num_1000)%float with 400000%float.
  rewrite Hecf'. unfold ret. eexists. split; [reflexivity|].
  cbn [x Vec3.x]. repeat split; vm_compute; reflexivity.
Qed.

End ViewerProperties.

(** *** What the sweep leaves in the console and in the footprint state *)

Section SweepEffects.

Context {env : Imports}.

Lemma calculateFovFootprint_normal (h fov : number) :
  exists s, calculateFovFootprint h fov = Normal s.
Proof. apply toFixed_2_normal. Qed.

(** The call in full: the value is [position_at], and a failed propagation
    is written to the console. *)
Lemma calculatePositionAtTime_effect (date : Date) (w : World) :
  calculatePositionAtTime tleLine1 tleLine2 date w =
    (Normal (position_at date),
     {| console :=
          console w ++
          (let pv := propagate (twoline2satrec tleLine1 tleLine2) date in
           match position pv, velocity pv with
           | Some _, Some _ => []
           | _, _ => [Invalid_position_and_velocity pv]
           end);
        clock := clock w;
        positionProperty := positionProperty w;
        footprintArea := footprintArea w |}).
Proof.
  unfold calculatePositionAtTime, position_at, transformed, sentinel.
  cbv zeta.
  destruct (position _) as [p|]; [destruct (velocity _) as [v|]|];
    unfold bind, console_error, ret; rewrite ?app_nil_r;
    destruct w; reflexivity.
Qed.

(** Iteration [k] in full: one clock reading, and what [errors_at],
    [sample_at] and [footprint_at] say. *)
Lemma loop_body_effect (c0 k : nat) (w : World) :
  clock w = (c0 + k)%nat ->
  loop_body (10 * Z.of_nat k) w =
    (Normal tt,
     {| console := console w ++ errors_at c0 k;
        clock := S (clock w);
        positionProperty := positionProperty w ++ sample_at c0 k;
        footprintArea := footprintArea w ++ footprint_at c0 k |}).
Proof.
  intro Hc.
  unfold errors_at, sample_at, footprint_at, instant. rewrite <- Hc.
  unfold loop_body, bind, now.
  set (t := JulianDate_addSeconds (JulianDate_now (clock w)) (10 * Z.of_nat k)).
  cbv zeta. rewrite calculatePositionAtTime_effect.
  cbn [console clock positionProperty footprintArea].
  fold (finite_position (position_at (JulianDate_toDate t))).
  destruct (finite_position (position_at (JulianDate_toDate t))) eqn:Hf.
  - unfold addSample, lift, setFootprintArea.
    destruct (calculateFovFootprint_normal
                (to_number (height (position_at (JulianDate_toDate t)))) num_45)
      as [s Hs].
    rewrite Hs. cbn [console clock positionProperty footprintArea].
    rewrite app_nil_r. reflexivity.
  - unfold console_error. cbn [console clock positionProperty footprintArea].
    rewrite !app_nil_r, <- app_assoc. reflexivity.
Qed.

Lemma for_loop_effect (c0 n : nat) :
  forall (k0 : nat) (i : Z) (w : World),
    i = 10 * Z.of_nat k0 ->
    (k0 + n = 360)%nat ->
    clock w = (c0 + k0)%nat ->
    for_loop i w =
      (Normal tt,
       {| console := console w ++ flat_map (errors_at c0) (seq k0 n);
          clock := (c0 + 360)%nat;
          positionProperty := positionProperty w ++ flat_map (sample_at c0) (seq k0 n);
          footprintArea := footprintArea w ++ flat_map (footprint_at c0) (seq k0 n) |}).
Proof.
  induction n as [|n IH]; intros k0 i w Hi Hk Hc.
  - rewrite for_loop_step.
    replace (i <? 3600) with false by (symmetry; apply Z.ltb_ge; lia).
    cbn [seq flat_map]. rewrite !app_nil_r.
    replace (c0 + 360)%nat with (clock w) by lia.
    destruct w; reflexivity.
  - rewrite for_loop_step.
    replace (i <? 3600) with true by (symmetry; apply Z.ltb_lt; lia).
    subst i. rewrite (loop_body_effect c0 k0 w Hc).
    rewrite (IH (S k0) (10 * Z.of_nat k0 + 10)); [| lia | lia | cbn [clock]; lia].
    cbn [console clock positionProperty footprintArea seq flat_map].
    rewrite <- !app_assoc. reflexivity.
Qed.

(** The sweep in full. *)
Lemma sampling_loop_effect (w : World) :
  sampling_loop w =
    (Normal tt,
     {| console := console w ++ flat_map (errors_at (clock w)) (seq 0 360);
        clock := (clock w + 360)%nat;
        positionProperty := flat_map (sample_at (clock w)) (seq 0 360);
        footprintArea :=
          footprintArea w ++ flat_map (footprint_at (clock w)) (seq 0 360) |}).
Proof.
  unfold sampling_loop, bind, new_SampledPositionProperty.
  match goal with
  | |- for_loop 0 ?w0 = _ =>
      rewrite (for_loop_effect (clock w) 360 0 0 w0 eq_refl eq_refl
                 (eq_sym (Nat.add_0_r _)))
  end.
  reflexivity.
Qed.

(** Each iteration adds a sample or reports the coordinates, never both;
    it reports a failed propagation only together with the coordinates. *)
Lemma sample_or_report (c0 k : nat) :
  (List.length (sample_at c0 k)
   + List.length (filter is_invalid_coordinates (errors_at c0 k)) = 1)%nat
  /\ (List.length (filter is_invalid_position_and_velocity (errors_at c0 k))
      <= List.length (filter is_invalid_coordinates (errors_at c0 k)))%nat.
Proof.
  unfold sample_at, errors_at, position_at. cbv zeta.
  destruct (position _) as [p|]; [destruct (velocity _) as [v|]|];
    try change (finite_position sentinel) with false;
    try (destruct (finite_position _)); cbn; lia.
Qed.

Lemma sweep_or_report (c0 : nat) (ks : list nat) :
  (List.length (flat_map (sample_at c0) ks)
   + List.length (filter is_invalid_coordinates (flat_map (errors_at c0) ks))
   = List.length ks)%nat
  /\ (List.length (filter is_invalid_position_and_velocity
                     (flat_map (errors_at c0) ks))
      <= List.length (filter is_invalid_coordinates (flat_map (errors_at c0) ks)))%nat.
Proof.
  induction ks as [|k ks [IH1 IH2]]; cbn [flat_map List.length filter].
  - split; reflexivity.
  - destruct (sample_or_report c0 k) as [H1 H2].
    rewrite !filter_app, !length_app. split; lia.
Qed.

Lemma no_report_no_entry (l : list console_entry) :
  List.length (filter is_invalid_coordinates l) = 0%nat ->
  List.length (filter is_invalid_position_and_velocity l) = 0%nat ->
  l = [].
Proof.
  destruct l as [|[pv|p] l]; cbn; [reflexivity | discriminate | discriminate].
Qed.

(** X1: the sweep accounts for each of its 360 instants: an instant either
    adds a sample or is reported to the console as invalid coordinates, and
    a failed propagation is never reported alone. The console is left
    as it was exactly when all 360 samples were added. *)
Theorem every_instant_is_sampled_or_reported (w : World) :
  exists w' logged,
    sampling_loop w = (Normal tt, w')
    /\ console w' = console w ++ logged
    /\ (List.length (positionProperty w')
        + List.length (filter is_invalid_coordinates logged) = 360)%nat
    /\ (List.length (filter is_invalid_position_and_velocity logged)
        <= List.length (filter is_invalid_coordinates logged))%nat
    /\ (logged = [] <-> List.length (positionProperty w') = 360%nat).
Proof.
  eexists. exists (flat_map (errors_at (clock w)) (seq 0 360)).
  split; [apply sampling_loop_effect|].
  cbn [console positionProperty].
  destruct (sweep_or_report (clock w) (seq 0 360)) as [H1 H2].
  rewrite length_seq in H1.
  split; [reflexivity|]. split; [exact H1|]. split; [exact H2|].
  split.
  - intro E. rewrite E in H1. cbn [filter List.length] in H1. lia.
  - intro E. rewrite E in H1. apply no_report_no_entry; lia.
Qed.

(** The report of a failed propagation: what [propagate] returned, then
    the sentinel. *)
Lemma errors_at_failed (c0 k : nat) :
  propagation_fails (JulianDate_toDate (instant c0 k)) ->
  errors_at c0 k =
    [Invalid_position_and_velocity
       (propagate (twoline2satrec tleLine1 tleLine2)
          (JulianDate_toDate (instant c0 k)));
     Invalid_Cartesian_coordinates sentinel].
Proof.
  intro H. unfold errors_at. cbv zeta. rewrite (position_at_failed _ H).
  destruct H as [H | H]; rewrite H; [reflexivity|].
  destruct (position _); reflexivity.
Qed.

Lemma flat_map_split {B : Type} (f : nat -> list B) (n k : nat) :
  (k < n)%nat ->
  flat_map f (seq 0 n)
  = flat_map f (seq 0 k) ++ f k ++ flat_map f (seq (S k) (n - S k)).
Proof.
  intro H.
  replace n with (k + S (n - S k))%nat at 1 by lia.
  rewrite seq_app, flat_map_app. cbn [seq flat_map Nat.add]. reflexivity.
Qed.

(** X2: a propagation that fails at one of the 360 instants is reported
    twice, in a row: by [calculatePositionAtTime] with what [propagate]
    returned, then by the loop with the NaN position; the sweep goes on. *)
Theorem failed_propagation_is_reported_twice (w : World) (k : nat) :
  (k < 360)%nat ->
  propagation_fails (JulianDate_toDate (instant (clock w) k)) ->
  exists w' before after,
    sampling_loop w = (Normal tt, w')
    /\ console w' =
       console w ++ before
       ++ [Invalid_position_and_velocity
             (propagate (twoline2satrec tleLine1 tleLine2)
                (JulianDate_toDate (instant (clock w) k)));
           Invalid_Cartesian_coordinates
             {| x := NaN; y := NaN; z := NaN; height := None |}]
       ++ after.
Proof.
  intros Hk Hfail. eexists.
  exists (flat_map (errors_at (clock w)) (seq 0 k)),
         (flat_map (errors_at (clock w)) (seq (S k) (360 - S k))).
  split; [apply sampling_loop_effect|].
  cbn [console]. f_equal.
  rewrite (flat_map_split _ 360 k Hk), (errors_at_failed _ _ Hfail).
  reflexivity.
Qed.

(** The footprint of a finite position is computed from its height, which
    is the geodetic height times 1000. *)
Lemma finite_position_has_height (date : Date) :
  finite_position (position_at date) = true ->
  exists positionEci,
    position (propagate (twoline2satrec tleLine1 tleLine2) date) = Some positionEci
    /\ height (position_at date)
       = Some (Geodetic.height (eciToGeodetic positionEci (gstime date))
               * num_1000)%float.
Proof.
  unfold position_at. cbv zeta.
  destruct (position _) as [p|]; [destruct (velocity _) as [v|]|];
    intro H; try discriminate H.
  exists p. split; reflexivity.
Qed.

Lemma footprint_per_sample (c0 : nat) (ks : list nat) :
  Forall2 footprint_of_sample
    (flat_map (sample_at c0) ks) (flat_map (footprint_at c0) ks).
Proof.
  induction ks as [|k ks IH]; cbn [flat_map]; [constructor|].
  apply Forall2_app; [|exact IH].
  unfold sample_at, footprint_at. cbv zeta.
  destruct (finite_position _) eqn:Hf; [|constructor].
  destruct (finite_position_has_height _ Hf) as (p & Hp & Hh).
  rewrite Hh. cbn [to_number].
  match goal with
  | |- context [calculateFovFootprint ?h ?f] =>
      destruct (calculateFovFootprint_normal h f) as [s Hs]; rewrite Hs
  end.
  constructor; [|constructor].
  exists p. split; assumption.
Qed.

End SweepEffects.
Section SweepProperties.

Context {env : Imports}.

(** X3: the sweep calls [setFootprintArea] once for each sample it adds,
    in the same order, with the footprint computed for 45 degrees from the
    geodetic height at the sample's instant, in metres: the position whose
    height is missing, the sentinel, never reaches [calculateFovFootprint]. *)
Theorem footprint_is_set_once_per_sample (w : World) :
  exists w' added,
    sampling_loop w = (Normal tt, w')
    /\ footprintArea w' = footprintArea w ++ added
    /\ List.length added = List.length (positionProperty w')
    /\ Forall2 footprint_of_sample (positionProperty w') added.
Proof.
  eexists. exists (flat_map (footprint_at (clock w)) (seq 0 360)).
  split; [apply sampling_loop_effect|].
  cbn [footprintArea positionProperty].
  pose proof (footprint_per_sample (clock w) (seq 0 360)) as H.
  split; [reflexivity|]. split; [|exact H].
  symmetry. exact (Forall2_length H).
Qed.


Section SampleOrder.

(** Of Cesium's [JulianDate.lessThan], as for the 360 samples of a valid
    orbit. *)
Hypothesis lessThan_irreflexive : forall t, ~ JulianDate_lessThan t t.

Hypothesis addSeconds_increasing :
  forall (j k : nat) (s s' : Z),
    (j <= k)%nat -> s < s' ->
    JulianDate_lessThan (JulianDate_addSeconds (JulianDate_now j) s)
                        (JulianDate_addSeconds (JulianDate_now k) s').

Lemma sweep_instants (c0 : nat) (ks : list nat) :
  Forall (fun t => exists k, In k ks /\ t = instant c0 k)
         (map fst (flat_map (sample_at c0) ks)).
Proof.
  induction ks as [|k ks IH]; cbn [flat_map map]; [constructor|].
  rewrite map_app. apply Forall_app. split.
  - unfold sample_at. cbv zeta. destruct (finite_position _); constructor.
    + exists k. split; [left|]; reflexivity.
    + constructor.
  - eapply Forall_impl; [|exact IH].
    intros t (j & Hj & Ht). exists j. split; [right|]; assumption.
Qed.

Lemma sweep_sorted (c0 n : nat) :
  forall k0,
    StronglySorted JulianDate_lessThan
      (map fst (flat_map (sample_at c0) (seq k0 n))).
Proof.
  induction n as [|n IH]; intro k0; cbn [seq flat_map map]; [constructor|].
  rewrite map_app.
  unfold sample_at at 1. cbv zeta. destruct (finite_position _).
  - cbn [map app fst]. constructor; [apply IH|].
    eapply Forall_impl; [|apply sweep_instants].
    intros t (j & Hj & ->). apply in_seq in Hj.
    unfold instant. apply addSeconds_increasing; lia.
  - apply IH.
Qed.

(** X4: whichever instants fail, the samples the sweep keeps are in
    strictly increasing order of time, with no instant twice; there are at
    most 360, each at one of the instants of the sweep. *)
Theorem kept_samples_are_in_time_order (w : World) :
  exists w',
    sampling_loop w = (Normal tt, w')
    /\ StronglySorted JulianDate_lessThan (map fst (positionProperty w'))
    /\ NoDup (map fst (positionProperty w'))
    /\ (List.length (positionProperty w') <= 360)%nat
    /\ Forall (fun t => exists k, (k < 360)%nat /\ t = instant (clock w) k)
              (map fst (positionProperty w')).
Proof.
  eexists. split; [apply sampling_loop_effect|].
  cbn [positionProperty].
  pose proof (sweep_sorted (clock w) 360 0) as Hs.
  split; [exact Hs|]. split; [|split].
  - exact (sorted_NoDup lessThan_irreflexive _ Hs).
  - destruct (sweep_or_report (clock w) (seq 0 360)) as [H _].
    rewrite length_seq in H. lia.
  - eapply Forall_impl; [|apply sweep_instants].
    intros t (k & Hk & ->). apply in_seq in Hk. exists k. split; [lia|reflexivity].
Qed.

End SampleOrder.

End SweepProperties.

(** *** [calculateFovFootprint] at the edges *)

Section FootprintEdges.

Context {env : Imports}.

Lemma footprintArea_of_spec (h fov : number) :
  Prim2SF (footprintArea_of h fov) =
  let r := SFmul prec emax (Prim2SF h)
             (Prim2SF (Math_tan (degreesToRadians (fov / num_2)%float))) in
  SFdiv prec emax
    (SFmul prec emax (SFmul prec emax (Prim2SF Math_PI) r) r)
    (Prim2SF num_1000000).
Proof.
  unfold footprintArea_of, fovRadius_of. cbv zeta.
  rewrite div_spec, !mul_spec. reflexivity.
Qed.

(** X6: the footprint does not depend on the sign of the altitude: the
    altitude enters the area through the square of the radius only. *)
Theorem footprint_ignores_the_sign_of_the_altitude (h fov : number) :
  footprintArea_of (- h)%float fov = footprintArea_of h fov
  /\ calculateFovFootprint (- h)%float fov = calculateFovFootprint h fov.
Proof.
  assert (E : footprintArea_of (- h)%float fov = footprintArea_of h fov).
  { unfold footprintArea_of, fovRadius_of. cbv zeta.
    rewrite mul_opp_l, !mul_opp_r, mul_opp_l.
    f_equal. apply Prim2SF_inj. rewrite !opp_spec. apply SFopp_involutive. }
  split; [exact E|]. unfold calculateFovFootprint. rewrite E. reflexivity.
Qed.

(** X8: the area is never negative, and never a negative zero: it is NaN
    or has a clear sign bit. So the string returned for an area below 10^21
    prints non-negative hundredths, with no minus sign. *)
Theorem footprint_is_never_negative (h fov : number) :
  (footprintArea_of h fov <? 0)%float = false
  /\ signed false (Prim2SF (footprintArea_of h fov))
  /\ ((footprintArea_of h fov <? num_1e21)%float = true ->
      exists n, 0 <= n /\ calculateFovFootprint h fov = Normal (fixed_2 n)).
Proof.
  pose proof (SF_area_signed (fovRadius_of h fov)) as Hs.
  fold (footprintArea_of h fov) in Hs.
  split; [|split; [exact Hs|]].
  - rewrite ltb_spec.
    destruct (Prim2SF (footprintArea_of h fov)) as [s|s| |s m e];
      cbn [signed] in Hs; subst; reflexivity.
  - intro Hlt.
    assert (Hn : Prim2SF (footprintArea_of h fov) <> S754_nan).
    { intro E. rewrite ltb_spec, E in Hlt. discriminate Hlt. }
    destruct (nonneg_below_1e21 _ (signed_nonneg _ Hs Hn) Hlt) as [n Hh].
    exists n. split; [exact (SFhundredths_nonneg _ _ Hh)|].
    apply toFixed_hundredths. exact Hh.
Qed.

(** X7: the altitudes at the edge. A missing altitude (NaN, which is what
    [undefined] becomes) or a tangent that is NaN gives the string NaN; an
    altitude of zero gives 0.00 when the tangent is finite; an infinite
    altitude gives Infinity when the tangent is not zero and not NaN. *)
Theorem footprint_at_the_edges_of_the_altitude (h fov : number) :
  let t := Math_tan (degreesToRadians (fov / num_2)%float) in
  (h = NaN \/ t = NaN -> calculateFovFootprint h fov = Normal "NaN"%string)
  /\ ((h =? 0)%float = true -> isFinite t = true ->
      calculateFovFootprint h fov = Normal "0.00"%string)
  /\ ((abs h =? infinity)%float = true -> (0 <? abs t)%float = true ->
      calculateFovFootprint h fov = Normal "Infinity"%string).
Proof.
  cbv zeta. unfold calculateFovFootprint.
  rewrite toFixed_of_SF, footprintArea_of_spec. cbv zeta.
  change (Prim2SF Math_PI) with (S754_finite false 7074237752028440 (-51)).
  change (Prim2SF num_1000000) with (S754_finite false million_m million_e).
  split; [|split].
  - intros [-> | ->].
    + change (Prim2SF NaN) with S754_nan. reflexivity.
    + change (Prim2SF NaN) with S754_nan.
      destruct (Prim2SF h) as [s|s| |s m e]; reflexivity.
  - intros Hz Hf. apply isFinite_cases in Hf.
    rewrite eqb_spec in Hz. change (Prim2SF 0) with (S754_zero false) in Hz.
    destruct (Prim2SF h) as [s|[|]| |[|] m e]; try discriminate Hz.
    destruct (Prim2SF (Math_tan _)) as [s'|s'| |s' m' e']; try contradiction;
      reflexivity.
  - intros Hi Ht.
    rewrite eqb_spec, abs_spec in Hi. rewrite ltb_spec, abs_spec in Ht.
    change (Prim2SF infinity) with (S754_infinity false) in Hi.
    change (Prim2SF 0) with (S754_zero false) in Ht.
    destruct (Prim2SF h) as [[|]|[|]| |[|] m e]; try discriminate Hi;
      destruct (Prim2SF (Math_tan _)) as [[|]|[|]| |[|] m' e'];
      try discriminate Ht; reflexivity.
Qed.

End FootprintEdges.

(** *** The handlers *)

Section HandlerProperties.

Context {env : Imports} {cesium : CesiumImports}.

(** A tick in full. *)
Lemma tick_update_effect (position : option Cartesian3.t) (w : World) :
  tick_update position w =
    (Normal tt,
     {| console := console w;
        clock := clock w;
        positionProperty := positionProperty w;
        footprintArea :=
          footprintArea w ++
          match position with
          | Some p =>
              match calculateFovFootprint (Cartesian3_magnitude p) num_45 with
              | Normal s => [s]
              | Throw _ => []
              end
          | None => []
          end |}).
Proof.
  unfold tick_update. destruct position as [p|].
  - cbv zeta. unfold bind, lift, setFootprintArea.
    destruct (calculateFovFootprint_normal (Cartesian3_magnitude p) num_45)
      as [s Hs].
    rewrite Hs. reflexivity.
  - unfold ret. rewrite app_nil_r. destruct w; reflexivity.
Qed.

(** X9: a clock tick never throws and changes nothing but the footprint
    state, which it sets at most once: not at all when the property has no
    position at the current time, and otherwise to the footprint computed
    from the distance of the position to the centre of the Earth. *)
Theorem tick_changes_only_the_footprint (t : JulianDate) (w : World) :
  exists w',
    on_tick t w = (Normal tt, w')
    /\ console w' = console w
    /\ clock w' = clock w
    /\ positionProperty w' = positionProperty w
    /\ match SampledPositionProperty_getValue (positionProperty w) t with
       | None => w' = w
       | Some p =>
           exists s,
             calculateFovFootprint (Cartesian3_magnitude p) num_45 = Normal s
             /\ footprintArea w' = footprintArea w ++ [s]
       end.
Proof.
  unfold on_tick. rewrite tick_update_effect. eexists.
  split; [reflexivity|]. cbn [console clock positionProperty footprintArea].
  repeat split.
  destruct (SampledPositionProperty_getValue _ _) as [p|].
  - destruct (calculateFovFootprint_normal (Cartesian3_magnitude p) num_45)
      as [s Hs].
    exists s. rewrite Hs. split; reflexivity.
  - rewrite app_nil_r. destruct w; reflexivity.
Qed.

(** X10: when the propagation fails at every instant of the sweep, the
    footprint state is never set: the sweep leaves it as it was, and (an
    empty property having no position at any time) so does every tick
    after it. *)
Theorem footprint_is_never_set_when_the_orbit_fails (w : World) :
  (forall t, SampledPositionProperty_getValue [] t = None) ->
  (forall k, (k < 360)%nat ->
             propagation_fails (JulianDate_toDate (instant (clock w) k))) ->
  exists w',
    sampling_loop w = (Normal tt, w')
    /\ footprintArea w' = footprintArea w
    /\ forall t, on_tick t w' = (Normal tt, w').
Proof.
  intros Hempty Hfail.
  assert (Hs : flat_map (sample_at (clock w)) (seq 0 360) = []).
  { apply sweep_all_failed. intros k Hk. apply in_seq in Hk. apply Hfail. lia. }
  assert (Hf : flat_map (footprint_at (clock w)) (seq 0 360) = []).
  { pose proof (footprint_per_sample (clock w) (seq 0 360)) as H.
    apply Forall2_length in H. rewrite Hs in H.
    destruct (flat_map (footprint_at (clock w)) (seq 0 360));
      [reflexivity | discriminate H]. }
  eexists. split; [apply sampling_loop_effect|].
  cbn [footprintArea]. rewrite Hf, Hs, app_nil_r.
  split; [reflexivity|].
  intro t. unfold on_tick. cbn [positionProperty]. rewrite Hempty.
  reflexivity.
Qed.

Lemma bottomRadius_callback_effect (w : World) :
  bottomRadius_callback w =
    (Normal (cone_bottomRadius
               (SampledPositionProperty_getValue (positionProperty w)
                  (JulianDate_now (clock w)))),
     {| console := console w;
        clock := S (clock w);
        positionProperty := positionProperty w;
        footprintArea := footprintArea w |}).
Proof. reflexivity. Qed.

Lemma length_callback_effect (w : World) :
  length_callback w =
    (Normal (cone_length
               (SampledPositionProperty_getValue (positionProperty w)
                  (JulianDate_now (clock w)))),
     {| console := console w;
        clock := S (clock w);
        positionProperty := positionProperty w;
        footprintArea := footprintArea w |}).
Proof. reflexivity. Qed.

(** X11: the footprint a tick shows is the area of the base of the cone
    drawn at the same position: pi times the square of the bottom radius
    the cone's callback returns, divided by 10^6, provided Cesium's and
    satellite.js's conversions to radians agree at 22.5 degrees. *)
Theorem tick_footprint_is_the_area_of_the_cone_base
  (t : JulianDate) (p : Cartesian3.t) (w : World) :
  Cesium_Math_toRadians num_22_5 = degreesToRadians num_22_5 ->
  SampledPositionProperty_getValue (positionProperty w) (JulianDate_now (clock w))
  = Some p ->
  SampledPositionProperty_getValue (positionProperty w) t = Some p ->
  exists r s w1 w2,
    bottomRadius_callback w = (Normal r, w1)
    /\ on_tick t w = (Normal tt, w2)
    /\ toFixed Number_toString (Math_PI * r * r / num_1000000)%float 2 = Normal s
    /\ footprintArea w2 = footprintArea w ++ [s].
Proof.
  intros Hrad Hnow Ht.
  rewrite bottomRadius_callback_effect, Hnow.
  unfold on_tick. rewrite Ht, tick_update_effect.
  destruct (calculateFovFootprint_normal (Cartesian3_magnitude p) num_45)
    as [s Hs].
  rewrite Hs. do 4 eexists.
  split; [reflexivity|]. split; [reflexivity|].
  cbn [footprintArea]. split; [|reflexivity].
  unfold cone_bottomRadius. cbv zeta. rewrite Hrad. exact Hs.
Qed.

Lemma mul_zero_finite (t : number) :
  isFinite t = true -> (num_0 * t =? 0)%float = true.
Proof.
  intro H. apply isFinite_cases in H.
  rewrite eqb_spec, mul_spec.
  change (Prim2SF num_0) with (S754_zero false).
  destruct (Prim2SF t) as [[|]|[|]| |[|] m e]; try contradiction; reflexivity.
Qed.

(** X15: when the propagation fails at every instant of the sweep, the
    cone collapses: with an empty property that has no position at any time,
    the callbacks give it a length of 0 and, the tangent of 22.5 degrees
    being finite, a bottom radius of zero. *)
Theorem cone_collapses_when_the_orbit_fails (w : World) :
  (forall t, SampledPositionProperty_getValue [] t = None) ->
  isFinite (Math_tan (Cesium_Math_toRadians num_22_5)) = true ->
  (forall k, (k < 360)%nat ->
             propagation_fails (JulianDate_toDate (instant (clock w) k))) ->
  exists w' w1 w2 r,
    sampling_loop w = (Normal tt, w')
    /\ length_callback w' = (Normal num_0, w1)
    /\ bottomRadius_callback w' = (Normal r, w2)
    /\ (r =? 0)%float = true.
Proof.
  intros Hempty Hfin Hfail.
  assert (Hs : flat_map (sample_at (clock w)) (seq 0 360) = []).
  { apply sweep_all_failed. intros k Hk. apply in_seq in Hk. apply Hfail. lia. }
  do 4 eexists. split; [apply sampling_loop_effect|].
  rewrite length_callback_effect, bottomRadius_callback_effect.
  cbn [positionProperty]. rewrite Hs, !Hempty.
  split; [reflexivity|]. split; [reflexivity|].
  unfold cone_bottomRadius. cbv zeta. apply mul_zero_finite. exact Hfin.
Qed.

(** X16: once the listener of the CZML satellite is registered as well, a
    tick at which that satellite has a position leaves its footprint in the
    state, whatever the sampled property holds: the second listener sets
    the state last. When it has none, the tick is the one of the sampled
    property alone. *)
Theorem czml_footprint_is_set_last
  (position : JulianDate -> option Cartesian3.t) (t : JulianDate) (w : World) :
  match position t with
  | Some q =>
      exists s before w',
        calculateFovFootprint (Cartesian3_magnitude q) num_45 = Normal s
        /\ on_tick_both position t w = (Normal tt, w')
        /\ footprintArea w' = before ++ [s]
  | None => on_tick_both position t w = on_tick t w
  end.
Proof.
  unfold on_tick_both, czml_on_tick, bind, on_tick.
  rewrite tick_update_effect.
  destruct (position t) as [q|].
  - rewrite tick_update_effect.
    destruct (calculateFovFootprint_normal (Cartesian3_magnitude q) num_45)
      as [s Hs].
    rewrite Hs. exists s. do 2 eexists.
    split; [reflexivity|]. split; [reflexivity|]. reflexivity.
  - unfold tick_update, ret. reflexivity.
Qed.

(** *** The mouse-move handler *)

(** X12: the mouse-move handler never throws, whatever the scene returns
    for the pick: a property is read only of a value that is neither
    [undefined] nor [null]. The hover information is [null] when nothing
    is picked. *)
Theorem mouse_move_never_throws (pickedObject : Value.t) :
  Cesium_defined Value.Undefined = false ->
  Cesium_defined Value.Null = false ->
  exists hoverInfo,
    on_mouse_move pickedObject = Value.Ok hoverInfo
    /\ (Cesium_defined pickedObject = false -> hoverInfo = Value.Null).
Proof.
  intros Hu Hn. unfold on_mouse_move.
  destruct (Cesium_defined pickedObject) eqn:Hd.
  - assert (Hid : exists id, Value.get pickedObject "id" = Value.Ok id).
    { destruct pickedObject; try congruence; cbn [Value.get]; eauto. }
    destruct Hid as [id Hid]. rewrite Hid. cbn [Value.and_then].
    destruct (Value.truthy id) eqn:Ht.
    + assert (Hname : exists name, Value.get id "name" = Value.Ok name).
      { destruct id; try discriminate Ht; cbn [Value.get]; eauto. }
      assert (Hown : exists own, Value.get id "id" = Value.Ok own).
      { destruct id; try discriminate Ht; cbn [Value.get]; eauto. }
      destruct Hname as [name Hname], Hown as [own Hown].
      rewrite Hname. cbn [Value.and_then]. rewrite Hown.
      destruct (Value.truthy name); eexists; (split; [reflexivity | discriminate]).
    + eexists. split; [reflexivity | discriminate].
  - cbn [Value.and_then Value.truthy]. eexists. split; reflexivity.
Qed.

(** X13: over an entity, the hover information is the entity's name, or
    its id when the name is missing or empty; the page then shows the line
    with it, or nothing when the string shown is empty. *)
Theorem hover_shows_the_name_or_else_the_id
  (pickedObject entity : Value.t) (name : option string) (id : string) :
  Cesium_defined pickedObject = true ->
  Value.get pickedObject "id" = Value.Ok entity ->
  Value.truthy entity = true ->
  Value.get entity "name"
  = Value.Ok match name with
             | Some s => Value.String s
             | None => Value.Undefined
             end ->
  Value.get entity "id" = Value.Ok (Value.String id) ->
  let shown :=
    match name with
    | Some s => if String.eqb s EmptyString then id else s
    | None => id
    end in
  on_mouse_move pickedObject = Value.Ok (Value.String shown)
  /\ hover_line (Value.String shown)
     = Some (if String.eqb shown EmptyString then Text EmptyString
             else Div ["Hovered over: "%string; shown]).
Proof.
  intros Hd Hid Ht Hname Hentity. cbv zeta. split.
  - unfold on_mouse_move. rewrite Hd, Hid. cbn [Value.and_then].
    rewrite Ht, Hname. cbn [Value.and_then].
    destruct name as [s|]; cbn [Value.truthy negb].
    + destruct (String.eqb s EmptyString); cbn [negb]; [exact Hentity|reflexivity].
    + exact Hentity.
  - unfold hover_line. cbn [Value.truthy child].
    destruct (String.eqb _ EmptyString) eqn:E; cbn [negb]; [|reflexivity].
    apply String.eqb_eq in E. rewrite E. reflexivity.
Qed.

(** *** The colour handlers *)

Lemma after_event_alpha (s : Colors) (e : event) :
  (forall c a, Color_alpha (Color_withAlpha c a) = a) ->
  Color_alpha (fovColor s) = num_0_5 ->
  Color_alpha (fovColor (after_event s e)) = num_0_5.
Proof.
  intros Hlaw Hs. unfold after_event.
  destruct e as [v|v]; cbn.
  - exact Hs.
  - unfold handleFovColorChange.
    destruct (Color_fromCssColorString v); [apply Hlaw | exact Hs].
Qed.

Lemma fold_after_event_alpha (es : list event) :
  (forall c a, Color_alpha (Color_withAlpha c a) = a) ->
  forall s,
    Color_alpha (fovColor s) = num_0_5 ->
    Color_alpha (fovColor (fold_left after_event es s)) = num_0_5.
Proof.
  intro Hlaw. induction es as [|e es IH]; intros s Hs; cbn [fold_left].
  - exact Hs.
  - apply IH, after_event_alpha; assumption.
Qed.

(** X14: whatever colours are chosen, in whatever order, the colour of the
    field of view keeps an alpha of 0.5. A string that is not a colour
    leaves it as it was (the handler throws before it sets the state),
    whereas the satellite's colour becomes what the last string chosen for
    it parsed to, [undefined] included. *)
Theorem fov_colour_is_always_half_transparent (es : list event) :
  (forall c a, Color_alpha (Color_withAlpha c a) = a) ->
  Color_alpha (fovColor (after_events es)) = num_0_5
  /\ (forall v, Color_fromCssColorString v = None ->
                handleFovColorChange v (after_events es) = Value.TypeError
                /\ after_events (es ++ [FovColorChange v]) = after_events es)
  /\ (forall v, satelliteColor (after_events (es ++ [SatelliteColorChange v]))
                = Color_fromCssColorString v).
Proof.
  intro Hlaw. split; [|split].
  - apply fold_after_event_alpha; [exact Hlaw|]. apply Hlaw.
  - intros v Hv. unfold after_events. rewrite fold_left_app.
    cbn [fold_left]. unfold after_event, handleFovColorChange.
    rewrite Hv. split; reflexivity.
  - intro v. unfold after_events. rewrite fold_left_app. reflexivity.
Qed.

End HandlerProperties.

(** ** The properties on the sample imports *)

(** [toFixed] on sample values: rounding to the nearest, a tie upwards in
    magnitude, the sign of a negative value, and the range of the digits. *)
Example toFixed_samples :
  toFixed Sample.Number_toString 0x1.13f96455beee1p-3%float 2 = Normal "0.13"%string
  /\ toFixed Sample.Number_toString 0.125%float 2 = Normal "0.13"%string
  /\ toFixed Sample.Number_toString (-0x1.47ae147ae147bp-8)%float 2 = Normal "-0.01"%string
  /\ toFixed Sample.Number_toString 2.5%float 0 = Normal "3"%string
  /\ toFixed Sample.Number_toString (-0)%float 2 = Normal "0.00"%string
  /\ toFixed Sample.Number_toString 1%float 101 = Throw RangeError.
Proof. repeat split; vm_compute; reflexivity. Qed.

(** C1 as stated fails: the propagation of the
    decayed orbit fails, and the call returns a position whose coordinates
    are NaN. *)
Lemma decayed_orbit_gets_NaN_position :
  position (Sample.propagate_decayed
              (Sample.twoline2satrec tleLine1 tleLine2) 0) = None
  /\ fst (calculatePositionAtTime (env := Sample.decayed_orbit)
            tleLine1 tleLine2 0 initial_world)
     = Normal {| x := NaN; y := NaN; z := NaN; height := None |}.
Proof. split; reflexivity. Qed.

(** C1, as the code has it, on the decayed sample orbit. *)
Lemma failed_propagation_witness :
  calculatePositionAtTime (env := Sample.decayed_orbit)
    tleLine1 tleLine2 0 initial_world
  = (Normal {| x := NaN; y := NaN; z := NaN; height := None |},
     {| console := [Invalid_position_and_velocity Sample.failed];
        clock := 0;
        positionProperty := [];
        footprintArea := [] |})
  /\ isFinite NaN = false.
Proof.
  exact (failed_propagation_returns_NaN_sentinel (env := Sample.decayed_orbit)
           tleLine1 tleLine2 0 initial_world (or_introl eq_refl)).
Defined.


(** C2 on the sample orbit: the satellite is at (6778.137, 0, 0) km, the
    position returned has x = 406378.137. *)
Lemma round_trip_witness :
  exists pos,
    calculatePositionAtTime (env := Sample.valid_orbit)
      tleLine1 tleLine2 0 initial_world = (Normal pos, initial_world)
    /\ x pos = 0x1.8cda88c49ba5ep+18%float
    /\ (0x1.0624dd2f1a9fcp-10 <? abs (x pos - 0x1.a7a23126e978dp+12))%float = true
    /\ (1 <? abs (x pos - 0x1.a7a23126e978dp+12 * 1000))%float = true.
Proof.
  exact (round_trip_is_not_reproduced (env := Sample.valid_orbit)
           tleLine1 tleLine2 0 _ _ initial_world
           eq_refl eq_refl eq_refl eq_refl eq_refl).
Defined.

(** C3 as stated fails: at altitude 500 and 45
    degrees the formula's value is 134753.0211131618 (not 134,786), and the
    call returns the string 0.13; with the altitude in metres it returns
    the string 134753.02. *)
Lemma footprint_of_500_is_not_the_formula_value :
  (Math_PI * fovRadius_of (env := Sample.valid_orbit) 500%float num_45
   * fovRadius_of (env := Sample.valid_orbit) 500%float num_45)%float
  = 0x1.073082b3d609cp+17%float
  /\ calculateFovFootprint (env := Sample.valid_orbit) 500%float num_45
     = Normal "0.13"%string
  /\ calculateFovFootprint (env := Sample.valid_orbit) 500000%float num_45
     = Normal "134753.02"%string.
Proof. repeat split; vm_compute; reflexivity. Qed.

(** C3, as the code has it, with the sample tangent. *)
Lemma footprint_of_500_km_witness :
  calculateFovFootprint (env := Sample.valid_orbit) 500000%float num_45
  = Normal "134753.02"%string
  /\ calculateFovFootprint (env := Sample.valid_orbit) 500%float num_45
     = Normal "0.13"%string.
Proof.
  exact (footprint_of_500_km_at_45_degrees (env := Sample.valid_orbit)
           eq_refl eq_refl).
Defined.

(** C4 as stated fails: a negative altitude and a
    field of view of 200 degrees both give an area. *)
Lemma out_of_domain_inputs_give_an_area :
  calculateFovFootprint (env := Sample.valid_orbit) (-5)%float num_45
  = Normal "0.00"%string
  /\ calculateFovFootprint (env := Sample.valid_orbit) 500000%float 200%float
     = Normal "25261104.72"%string.
Proof. split; vm_compute; reflexivity. Qed.

(** C4, as the code has it, at the altitude -5. *)
Lemma out_of_domain_witness :
  exists s,
    calculateFovFootprint (env := Sample.valid_orbit) (-5)%float num_45 = Normal s
    /\ toFixed Sample.Number_toString
         (Math_PI * fovRadius_of (env := Sample.valid_orbit) (-5)%float num_45
          * fovRadius_of (env := Sample.valid_orbit) (-5)%float num_45 / num_1000000)%float 2
       = Normal s.
Proof.
  exact (out_of_domain_inputs_are_accepted (env := Sample.valid_orbit)
           (-5)%float num_45 (or_intror eq_refl)).
Defined.

(** C5 on the sample orbit that propagates at every date. *)
Lemma valid_orbit_witness :
  exists w',
    sampling_loop (env := Sample.valid_orbit) initial_world = (Normal tt, w')
    /\ List.length (positionProperty w') = 360%nat
    /\ hd_error (map fst (positionProperty w')) = Some 0
    /\ StronglySorted Z.lt (map fst (positionProperty w'))
    /\ NoDup (map fst (positionProperty w')).
Proof.
  apply (valid_orbit_yields_360_increasing_samples (env := Sample.valid_orbit)).
  - intro t. apply Z.lt_irrefl.
  - intros j k s s' Hjk Hs. cbn. unfold Sample.JulianDate_addSeconds,
      Sample.JulianDate_now. lia.
  - intros k _. exists (Vec3.mk 0x1.a7a23126e978dp+12 0 0)%float,
      (Vec3.mk 0 0x1.ea3d70a3d70a4p+2 0)%float.
    split; reflexivity.
Defined.

(** C6 on the sample orbit whose propagation fails for a while, and on the
    decayed one: the first keeps the 260 instants outside the failure, those
    after it included; the second keeps none. *)
Lemma skipped_instants_witness :
  (exists w',
      sampling_loop (env := Sample.intermittent_orbit) initial_world = (Normal tt, w')
      /\ map fst (positionProperty w')
         = map (fun k => 11 * Z.of_nat k) (seq 0 100 ++ seq 200 160))
  /\ (exists w',
         sampling_loop (env := Sample.decayed_orbit) initial_world = (Normal tt, w')
         /\ positionProperty w' = []).
Proof.
  split.
  - destruct (failed_instants_are_skipped (env := Sample.intermittent_orbit)
                initial_world) as (w' & Hl & _ & Hp & _).
    exists w'. split; [exact Hl|]. rewrite Hp. vm_compute. reflexivity.
  - destruct (failed_instants_are_skipped (env := Sample.decayed_orbit)
                initial_world) as (w' & Hl & _ & _ & _ & _ & Hall).
    exists w'. split; [exact Hl|]. apply Hall.
    intros k _. left. reflexivity.
Defined.

(** C9 as stated fails: the finite altitude 1e200 gives the string
    Infinity, which has no fraction digits. *)
Lemma huge_altitude_gives_Infinity :
  isFinite 0x1.4e718d7d7625ap+664%float = true
  /\ isFinite num_45 = true
  /\ calculateFovFootprint (env := Sample.valid_orbit) 0x1.4e718d7d7625ap+664%float num_45
     = Normal "Infinity"%string
  /\ two_fraction_digits "Infinity" = false.
Proof. repeat split; vm_compute; reflexivity. Qed.

(** C9, as the code has it, at 500000 metres and 45 degrees. *)
Lemma calculateFovFootprint_total_witness :
  calculateFovFootprint (env := Sample.valid_orbit) 500000%float num_45
  = Normal "134753.02"%string
  /\ two_fraction_digits "134753.02" = true.
Proof.
  destruct (calculateFovFootprint_total (env := Sample.valid_orbit)
              500000%float num_45) as (s & Hs & Hf & _).
  assert (E : s = "134753.02"%string).
  { apply Normal_inj. rewrite <- Hs. vm_compute. reflexivity. }
  rewrite <- E. split; [exact Hs|]. apply Hf. vm_compute. reflexivity.
Defined.

(** C7 on the sample imports: from 400 km at 45 degrees to 500 km at 60
    degrees. *)
Lemma footprint_area_monotone_witness :
  (footprintArea_of (env := Sample.valid_orbit) 400000%float num_45
   <=? footprintArea_of (env := Sample.valid_orbit) 500000%float 60%float)%float = true
  /\ ((footprintArea_of (env := Sample.valid_orbit) 500000%float 60%float <? num_1e21)%float = true ->
      exists n1 n2,
        calculateFovFootprint (env := Sample.valid_orbit) 400000%float num_45
        = Normal (fixed_2 n1)
        /\ calculateFovFootprint (env := Sample.valid_orbit) 500000%float 60%float
           = Normal (fixed_2 n2)
        /\ 0 <= n1 <= n2).
Proof.
  exact (footprint_area_is_monotone (env := Sample.valid_orbit)
           400000%float 500000%float num_45 60%float
           eq_refl eq_refl eq_refl eq_refl eq_refl).
Defined.

(** The area does not grow strictly: rounding to two decimals gives altitudes
    of 1 and 2 metres the same string, and the strings above are
    86241.93 and 261799.39. *)
Example footprint_samples :
  calculateFovFootprint (env := Sample.valid_orbit) 1%float num_45 = Normal "0.00"%string
  /\ calculateFovFootprint (env := Sample.valid_orbit) 2%float num_45 = Normal "0.00"%string
  /\ calculateFovFootprint (env := Sample.valid_orbit) 400000%float num_45
     = Normal "86241.93"%string
  /\ calculateFovFootprint (env := Sample.valid_orbit) 500000%float 60%float
     = Normal "261799.39"%string.
Proof. repeat split; vm_compute; reflexivity. Qed.

(** ** The sweep and the handlers on the sample imports *)

(** X2 on the orbit whose propagation fails for a while: the instant of
    iteration 100 is 1100 seconds after the epoch, where it fails. *)
Lemma reported_twice_witness :
  exists w' before after,
    sampling_loop (env := Sample.intermittent_orbit) initial_world = (Normal tt, w')
    /\ console w' =
       [] ++ before
       ++ [Invalid_position_and_velocity Sample.failed;
           Invalid_Cartesian_coordinates
             {| x := NaN; y := NaN; z := NaN; height := None |}]
       ++ after.
Proof.
  exact (failed_propagation_is_reported_twice (env := Sample.intermittent_orbit)
           initial_world 100 ltac:(lia) (or_introl eq_refl)).
Defined.

(** X4 on the same orbit, which keeps 260 of the 360 instants. *)
Lemma kept_samples_witness :
  exists w',
    sampling_loop (env := Sample.intermittent_orbit) initial_world = (Normal tt, w')
    /\ StronglySorted Z.lt (map fst (positionProperty w'))
    /\ NoDup (map fst (positionProperty w'))
    /\ (List.length (positionProperty w') <= 360)%nat
    /\ Forall (fun t => exists k, (k < 360)%nat
                                  /\ t = instant (env := Sample.intermittent_orbit) 0 k)
              (map fst (positionProperty w')).
Proof.
  apply (kept_samples_are_in_time_order (env := Sample.intermittent_orbit)).
  - intro t. apply Z.lt_irrefl.
  - intros j k s s' Hjk Hs. cbn. unfold Sample.JulianDate_addSeconds,
      Sample.JulianDate_now. lia.
Defined.

(** X10 on the decayed orbit. *)
Lemma never_set_witness :
  exists w',
    sampling_loop (env := Sample.decayed_orbit) initial_world = (Normal tt, w')
    /\ footprintArea w' = []
    /\ forall t, on_tick (cesium := SampleCesium.decayed_orbit) t w' = (Normal tt, w').
Proof.
  apply (footprint_is_never_set_when_the_orbit_fails
           (cesium := SampleCesium.decayed_orbit) initial_world).
  - intro t. reflexivity.
  - intros k _. left. reflexivity.
Defined.

(** X15 on the decayed orbit. *)
Lemma cone_collapses_witness :
  exists w' w1 w2 r,
    sampling_loop (env := Sample.decayed_orbit) initial_world = (Normal tt, w')
    /\ length_callback (cesium := SampleCesium.decayed_orbit) w' = (Normal num_0, w1)
    /\ bottomRadius_callback (cesium := SampleCesium.decayed_orbit) w' = (Normal r, w2)
    /\ (r =? 0)%float = true.
Proof.
  apply (cone_collapses_when_the_orbit_fails
           (cesium := SampleCesium.decayed_orbit) initial_world).
  - intro t. reflexivity.
  - reflexivity.
  - intros k _. left. reflexivity.
Defined.

(** X11 at the first sample of the valid orbit. *)
Lemma cone_base_witness :
  exists r s w1 w2,
    bottomRadius_callback (cesium := SampleCesium.valid_orbit) SampleCesium.first_sample
    = (Normal r, w1)
    /\ on_tick (cesium := SampleCesium.valid_orbit) 0 SampleCesium.first_sample = (Normal tt, w2)
    /\ toFixed Sample.Number_toString (Math_PI * r * r / num_1000000)%float 2
       = Normal s
    /\ footprintArea w2 = [] ++ [s].
Proof.
  exact (tick_footprint_is_the_area_of_the_cone_base
           (cesium := SampleCesium.valid_orbit) 0
           (Cartesian3.mk 0x1.8cda88c49ba5ep+18 0 0)%float SampleCesium.first_sample
           eq_refl eq_refl eq_refl).
Defined.

(** At that sample the sweep and a tick set different footprints: the
    sweep computes it from the geodetic height in metres (400000), the tick
    from the distance to the centre of the Earth (406378.137); the cone
    there is 609567.2 long, with a base of radius 168327.3. *)
Example sweep_and_tick_footprints :
  footprint_at (env := Sample.valid_orbit) 0 0 = ["86241.93"%string]
  /\ on_tick (cesium := SampleCesium.valid_orbit) 0 SampleCesium.first_sample
     = (Normal tt,
        @Build_World Sample.valid_orbit [] 0%nat
          [(0, (Cartesian3.mk 0x1.8cda88c49ba5ep+18 0 0)%float)]
          ["89014.18"%string])
  /\ fst (length_callback (cesium := SampleCesium.valid_orbit) SampleCesium.first_sample)
     = Normal 0x1.29a3e69374bc6p+19%float
  /\ fst (bottomRadius_callback (cesium := SampleCesium.valid_orbit) SampleCesium.first_sample)
     = Normal 0x1.48c3aafb6803dp+17%float.
Proof. repeat split; vm_compute; reflexivity. Qed.

(** X12 over the satellite of the CZML document. *)
Lemma mouse_move_witness :
  exists hoverInfo,
    on_mouse_move (cesium := SampleCesium.valid_orbit) SampleCesium.picked_satellite
    = Value.Ok hoverInfo
    /\ (SampleCesium.defined SampleCesium.picked_satellite = false -> hoverInfo = Value.Null).
Proof.
  exact (mouse_move_never_throws (cesium := SampleCesium.valid_orbit)
           SampleCesium.picked_satellite eq_refl eq_refl).
Defined.

(** X13 over the same entity, whose name is shown. *)
Lemma hover_witness :
  on_mouse_move (cesium := SampleCesium.valid_orbit) SampleCesium.picked_satellite
  = Value.Ok (Value.String "Geoeye 1")
  /\ hover_line (env := Sample.valid_orbit) (Value.String "Geoeye 1")
     = Some (Div ["Hovered over: "%string; "Geoeye 1"%string]).
Proof.
  exact (hover_shows_the_name_or_else_the_id (cesium := SampleCesium.valid_orbit)
           SampleCesium.picked_satellite
           (Value.Object [("id"%string, Value.String "Satellite/Geoeye1");
                          ("name"%string, Value.String "Geoeye 1")])
           (Some "Geoeye 1"%string) "Satellite/Geoeye1"
           eq_refl eq_refl eq_refl eq_refl eq_refl).
Defined.

(** The handler on other picks: nothing, a value with no id, an entity
    with no name, an entity whose name is empty. *)
Example mouse_move_samples :
  on_mouse_move (cesium := SampleCesium.valid_orbit) Value.Undefined
  = Value.Ok Value.Null
  /\ on_mouse_move (cesium := SampleCesium.valid_orbit)
       (Value.Object [("primitive"%string, Value.Object [])])
     = Value.Ok Value.Null
  /\ on_mouse_move (cesium := SampleCesium.valid_orbit)
       (Value.Object [("id"%string, Value.Object [("id"%string, Value.String "e1")])])
     = Value.Ok (Value.String "e1")
  /\ on_mouse_move (cesium := SampleCesium.valid_orbit)
       (Value.Object [("id"%string,
                       Value.Object [("id"%string, Value.String "e1");
                                     ("name"%string, Value.String EmptyString)])])
     = Value.Ok (Value.String "e1")
  /\ hover_line (env := Sample.valid_orbit) Value.Null = Some Nothing.
Proof. repeat split; reflexivity. Qed.

(** X14 on four events: a colour and then a string that is not one
    (five hexadecimal digits) for the field of view, a colour and then a
    string that is not one (letters that are not hexadecimal digits) for the
    satellite. *)
Lemma colours_witness :
  Color_alpha (CesiumImports := SampleCesium.valid_orbit)
    (fovColor
       (after_events (cesium := SampleCesium.valid_orbit)
          [FovColorChange "#00ff00"; FovColorChange "#12345";
           SatelliteColorChange "#ffff00"; SatelliteColorChange "#gggggg"]))
  = num_0_5
  /\ after_events (cesium := SampleCesium.valid_orbit)
       [FovColorChange "#00ff00"; FovColorChange "#12345";
        SatelliteColorChange "#ffff00"; SatelliteColorChange "#gggggg"]
     = @Build_Colors Sample.valid_orbit SampleCesium.valid_orbit
         None (0, 1, 0, 0.5)%float.
Proof.
  split; [|reflexivity].
  apply (fov_colour_is_always_half_transparent
           (cesium := SampleCesium.valid_orbit)).
  intros [[[r g] b] a0] a. reflexivity.
Defined.

(** X6, X7 and X8 on the sample imports. *)
Example footprint_edge_samples :
  calculateFovFootprint (env := Sample.valid_orbit) (-500000)%float num_45
  = Normal "134753.02"%string
  /\ calculateFovFootprint (env := Sample.valid_orbit) 0%float num_45
     = Normal "0.00"%string
  /\ calculateFovFootprint (env := Sample.valid_orbit) (-0)%float num_45
     = Normal "0.00"%string
  /\ calculateFovFootprint (env := Sample.valid_orbit) infinity num_45
     = Normal "Infinity"%string
  /\ calculateFovFootprint (env := Sample.valid_orbit) (to_number None) num_45
     = Normal "NaN"%string.
Proof. repeat split; vm_compute; reflexivity. Qed.
